(** * presto-lavalamp: a shallow embedding of [main.py]

    The program simulates a lava lamp: a list of blobs moved by gravity and
    buoyancy, a metaball scalar field sampled on a 20 x 70 grid, and two
    chrome bands drawn as thin rectangles.

    Number model.  Python [int] values are [Z].  Python [float] values are
    real numbers ([R]): every arithmetic operation is taken to be exact, so a
    result stated here says nothing about rounding.  [random.random()] is an
    explicit stream of draws [nat -> R] together with the number of draws
    consumed so far; [random.uniform a b] is [a + (b - a) * random()], as in
    the MicroPython and CPython libraries.  The display is a trace of the
    calls made on it.

    The initialisation loop is the one place where rounding decides what the
    program does (how the loop ends); it is embedded a second time, in
    [FloatInit], on IEEE binary floats. *)

From Stdlib Require Import Reals Lra Lia ZArith List Bool QArith Qreals.
From Stdlib Require Import SpecFloat.
Import ListNotations.
Local Open Scope R_scope.

(** ** Comparisons of floats as booleans *)

Definition Rgtb (a b : R) : bool := if Rgt_dec a b then true else false.
Definition Rltb (a b : R) : bool := if Rlt_dec a b then true else false.

(** ** Module-level constants (main.py, lines 10-56) *)

Definition SCREEN_WIDTH : Z := 480.
Definition SCREEN_HEIGHT : Z := 480.
Definition CANVAS_WIDTH : Z := 20.
Definition CANVAS_HEIGHT : Z := 70.
Definition SCALE : Z := 6.

Definition COLUMN_X : Z := (SCREEN_WIDTH - CANVAS_WIDTH * SCALE) / 2.
Definition COLUMN_Y : Z := (SCREEN_HEIGHT - CANVAS_HEIGHT * SCALE) / 2.
Definition CHROME_HEIGHT : Z := 10 * SCALE.

Definition COLUMN_AREA : Z := CANVAS_WIDTH * CANVAS_HEIGHT * SCALE ^ 2.
Definition TOTAL_AREA : R := IZR COLUMN_AREA * (5 / 100).
Definition MAX_RADIUS : Z := 15.
Definition MIN_RADIUS : Z := 5.

Definition GRAVITY : R := 2 / 100.
Definition BUOYANCY : R := 5 / 100.
Definition HEAT_ZONE : R := IZR CANVAS_HEIGHT * (15 / 100).
Definition COOLING_RATE : R := 1 / 100.
Definition HEATING_RATE : R := 2 / 100.

(** ** The random source

    A computation that draws random numbers reads the stream [s] at the
    position [n] and returns the next position. *)

Definition Rand (A : Type) : Type := (nat -> R) -> nat -> A * nat.

Definition ret {A : Type} (a : A) : Rand A := fun _ n => (a, n).

Definition bind {A B : Type} (m : Rand A) (k : A -> Rand B) : Rand B :=
  fun s n => let (a, n') := m s n in k a s n'.

Notation "x <- m ;; k" := (bind m (fun x => k))
  (at level 61, m at next level, right associativity).

Definition random : Rand R := fun s n => (s n, S n).

Definition uniform (a b : R) : Rand R :=
  u <- random ;; ret (a + (b - a) * u).

(** ** class Blob (main.py, lines 59-115) *)

Module Blob.

Record t : Type := mk
  { x : R; y : R; r : R; dx : R; dy : R; temperature : R }.

Definition set_y (v : R) (self : t) : t :=
  mk (x self) v (r self) (dx self) (dy self) (temperature self).
Definition set_x (v : R) (self : t) : t :=
  mk v (y self) (r self) (dx self) (dy self) (temperature self).
Definition set_r (v : R) (self : t) : t :=
  mk (x self) (y self) v (dx self) (dy self) (temperature self).
Definition set_dx (v : R) (self : t) : t :=
  mk (x self) (y self) (r self) v (dy self) (temperature self).
Definition set_dy (v : R) (self : t) : t :=
  mk (x self) (y self) (r self) (dx self) v (temperature self).
Definition set_temperature (v : R) (self : t) : t :=
  mk (x self) (y self) (r self) (dx self) (dy self) v.

(** [__init__]: two draws, [dx] first. *)
Definition init (x0 y0 r0 : R) : Rand t :=
  dx0 <- uniform (- (5 / 10)) (5 / 10) ;;
  dy0 <- uniform (- (1 / 10)) (1 / 10) ;;
  ret (mk x0 y0 r0 dx0 dy0 0).

(** [update], one block of statements at a time. *)

(** [self.dy += GRAVITY] *)
Definition apply_gravity (self : t) : t :=
  set_dy (dy self + GRAVITY) self.

(** The heat-zone test and its two branches. *)
Definition heat_or_cool (self : t) : t :=
  if Rgtb (y self) (IZR CANVAS_HEIGHT - HEAT_ZONE)
  then set_dy (dy self - 5 / 100)
         (set_temperature (temperature self + HEATING_RATE) self)
  else set_temperature (temperature self - COOLING_RATE) self.

(** [self.temperature = max(0.0, min(1.0, self.temperature))] *)
Definition clamp_temperature (self : t) : t :=
  set_temperature (Rmax 0 (Rmin 1 (temperature self))) self.

(** [self.dy -= BUOYANCY * self.temperature * 2] *)
Definition apply_buoyancy (self : t) : t :=
  set_dy (dy self - BUOYANCY * temperature self * 2) self.

(** [self.x += self.dx; self.y += self.dy] *)
Definition move (self : t) : t :=
  set_y (y self + dy self) (set_x (x self + dx self) self).

(** Bounce off the horizontal edges: only [dx] changes. *)
Definition bounce (self : t) : t :=
  if Rltb (x self - r self) 0 || Rgtb (x self + r self) (IZR CANVAS_WIDTH)
  then set_dx (- dx self) self
  else self.

(** Reset a blob that left through the bottom or through the top. *)
Definition reset (self : t) : t :=
  if Rgtb (y self - r self) (IZR CANVAS_HEIGHT)
  then set_dy 0 (set_y (IZR CANVAS_HEIGHT - r self) self)
  else if Rltb (y self + r self) 0
  then set_dy 0 (set_y (r self) self)
  else self.

(** The blob as it stands when the reset test is reached. *)
Definition before_reset (self : t) : t :=
  bounce (move (apply_buoyancy (clamp_temperature
    (heat_or_cool (apply_gravity self))))).

Definition update (self : t) : t := reset (before_reset self).

Definition area (self : t) : R := PI * r self ^ 2.

(** [split] returns the blob as it is after the call and the child, if any.
    The two offsets are drawn before the child's constructor runs. *)
Definition split (self : t) : Rand (t * option t) :=
  if Rgtb (r self) (IZR MAX_RADIUS * (8 / 10))
  then
    let child_area := area self / 2 in
    let child_radius := sqrt (child_area / PI) in
    let self' := set_r child_radius self in
    ox <- uniform (- child_radius) child_radius ;;
    oy <- uniform (- child_radius) child_radius ;;
    child <- init (x self' + ox) (y self' + oy) child_radius ;;
    ret (self', Some child)
  else ret (self, None).

End Blob.

(** ** Initialisation of the blob list (main.py, lines 117-129)

    The [while] loop runs on fuel; [None] means the fuel ran out before
    [remaining_area] dropped to zero.  On exact reals the shrunk blob uses
    up what remains, [PI * sqrt (remaining_area / PI) ^ 2 = remaining_area],
    and the loop ends with it; on floats that equation is only approximate
    (see [FloatInit] below). *)

Fixpoint init_loop (fuel : nat) (blobs : list Blob.t) (remaining_area : R)
  : Rand (option (list Blob.t)) :=
  if Rgtb remaining_area 0 then
    match fuel with
    | O => ret None
    | S fuel' =>
        radius0 <- uniform (IZR MIN_RADIUS) (IZR (MIN_RADIUS + 2)) ;;
        let blob_area0 := PI * radius0 ^ 2 in
        let radius :=
          if Rgtb blob_area0 remaining_area
          then sqrt (remaining_area / PI) else radius0 in
        let blob_area := PI * radius ^ 2 in
        bx <- uniform radius (IZR CANVAS_WIDTH - radius) ;;
        by_ <- uniform radius (IZR CANVAS_HEIGHT - radius) ;;
        b <- Blob.init bx by_ radius ;;
        init_loop fuel' (blobs ++ [b]) (remaining_area - blob_area)
    end
  else ret (Some blobs).

Definition init_blobs (fuel : nat) : Rand (option (list Blob.t)) :=
  init_loop fuel [] TOTAL_AREA.

(** ** The same loop on floats (main.py, lines 45-47, 59-66, 101-102, 117-129)

    A float is an IEEE binary float of precision [prec] and exponent bound
    [emax]: [53] and [1024] for CPython's [float] (binary64), [24] and [128]
    for a single-precision MicroPython build (binary32).  Every operation
    rounds to nearest, ties to even.  [math.pi] and a decimal literal are
    the floats nearest to the number written, and [radius**2] is the rounded
    product [radius * radius].  The draws are a stream of floats. *)

Module FloatInit.
Section Format.

Variables prec emax : Z.

Definition of_Z (z : Z) : spec_float := binary_normalize prec emax z 0 false.
Definition fadd : spec_float -> spec_float -> spec_float := SFadd prec emax.
Definition fsub : spec_float -> spec_float -> spec_float := SFsub prec emax.
Definition fmul : spec_float -> spec_float -> spec_float := SFmul prec emax.
Definition fdiv : spec_float -> spec_float -> spec_float := SFdiv prec emax.
Definition fsqrt : spec_float -> spec_float := SFsqrt prec emax.
Definition fgtb (a b : spec_float) : bool := SFltb b a.

(** [math.pi]: the first 102 bits of pi, rounded to the format. *)
Definition pi : spec_float :=
  binary_normalize prec emax 3982441812995697363688351113952 (-100) false.

(** The literals [0.05], [0.5] and [0.1]. *)
Definition lit_0_05 : spec_float := fdiv (of_Z 5) (of_Z 100).
Definition lit_0_5 : spec_float := fdiv (of_Z 5) (of_Z 10).
Definition lit_0_1 : spec_float := fdiv (of_Z 1) (of_Z 10).

Definition TOTAL_AREA : spec_float := fmul (of_Z COLUMN_AREA) lit_0_05.

Record blob : Type := mk
  { x : spec_float; y : spec_float; r : spec_float;
    dx : spec_float; dy : spec_float; temperature : spec_float }.

(** [random.uniform a b] for the draw [u]. *)
Definition uniform (a b u : spec_float) : spec_float :=
  fadd a (fmul (fsub b a) u).

Definition area (self : blob) : spec_float :=
  fmul pi (fmul (r self) (r self)).

(** The loop's variables: the list, [remaining_area] and the position in
    the stream of draws. *)
Definition state : Type := (list blob * spec_float * nat)%type.

(** The loop test and one run of the loop body; [None] when the test
    fails. *)
Definition init_step (s : nat -> spec_float) (st : state) : option state :=
  let '(blobs, remaining_area, n) := st in
  if fgtb remaining_area (of_Z 0) then
    let radius0 := uniform (of_Z MIN_RADIUS) (of_Z (MIN_RADIUS + 2)) (s n) in
    let blob_area0 := fmul pi (fmul radius0 radius0) in
    let radius :=
      if fgtb blob_area0 remaining_area
      then fsqrt (fdiv remaining_area pi) else radius0 in
    let blob_area := fmul pi (fmul radius radius) in
    let bx :=
      uniform radius (fsub (of_Z CANVAS_WIDTH) radius) (s (1 + n)%nat) in
    let by_ :=
      uniform radius (fsub (of_Z CANVAS_HEIGHT) radius) (s (2 + n)%nat) in
    let b :=
      mk bx by_ radius
         (uniform (SFopp lit_0_5) lit_0_5 (s (3 + n)%nat))
         (uniform (SFopp lit_0_1) lit_0_1 (s (4 + n)%nat))
         (of_Z 0) in
    Some (blobs ++ [b], fsub remaining_area blob_area, (5 + n)%nat)
  else None.

(** The [while] loop on fuel: the state it ends in, or [None] when the fuel
    runs out first. *)
Fixpoint init_loop (fuel : nat) (s : nat -> spec_float) (st : state)
  : option state :=
  match init_step s st with
  | None => Some st
  | Some st' =>
      match fuel with
      | O => None
      | S fuel' => init_loop fuel' s st'
      end
  end.

Definition init_blobs (fuel : nat) (s : nat -> spec_float) : option state :=
  init_loop fuel s ([], TOTAL_AREA, 0%nat).

(** The state after [k] runs of the body, if the loop gets that far. *)
Fixpoint run (k : nat) (s : nat -> spec_float) (st : state) : option state :=
  match k with
  | O => Some st
  | S k' =>
      match init_step s st with
      | None => None
      | Some st' => run k' s st'
      end
  end.

(** [sum(b.area() for b in blobs)]. *)
Definition total_area (blobs : list blob) : spec_float :=
  fold_left (fun acc b => fadd acc (area b)) blobs (of_Z 0).

End Format.
End FloatInit.

(** ** The metaball field (main.py, lines 132-140) *)

Definition field_add (px py : R) (value : R) (blob : Blob.t) : R :=
  let ddx := px - Blob.x blob in
  let ddy := py - Blob.y blob in
  let distance_squared := ddx * ddx + ddy * ddy in
  if Rgtb distance_squared 0
  then value + Blob.r blob / (distance_squared + 1)
  else value.

Definition metaball_field (px py : R) (blobs : list Blob.t) : R :=
  fold_left (field_add px py) blobs 0.

(** ** The display

    The PicoGraphics display and the Presto board are outside the program;
    what the program does to them is the list of calls it makes, in order.
    A pen is the colour triple [create_pen] was given. *)

Definition pen : Type := (Z * Z * Z)%type.

Definition create_pen (red green blue : Z) : pen := (red, green, blue).

Inductive call : Type :=
| set_pen (p : pen)
| clear
| rectangle (px py w h : Z)
| presto_update
| sleep.

Definition background : pen := create_pen 0 0 0.

Definition chrome_colors : list pen :=
  [ create_pen 50 50 50; create_pen 75 75 75; create_pen 100 100 100;
    create_pen 125 125 125; create_pen 150 150 150; create_pen 175 175 175;
    create_pen 200 200 200;
    create_pen 175 175 175; create_pen 150 150 150; create_pen 125 125 125;
    create_pen 100 100 100; create_pen 75 75 75; create_pen 50 50 50 ].

(** [range(n)] and [enumerate(l)]. *)
Definition range (n : Z) : list Z := map Z.of_nat (seq 0 (Z.to_nat n)).

Definition enumerate {A : Type} (l : list A) : list (Z * A) :=
  combine (range (Z.of_nat (length l))) l.

(** [int(v)] on a float: truncation towards zero. *)
Definition py_int (v : R) : Z :=
  if Rltb v 0 then (- Int_part (- v))%Z else Int_part v.

(** ** draw_chrome (main.py, lines 143-165) *)

Definition chrome_slice_width : Z :=
  CANVAS_WIDTH * SCALE / Z.of_nat (length chrome_colors).

Definition chrome_x : Z := (SCREEN_WIDTH - CANVAS_WIDTH * SCALE) / 2.

Definition chrome_slice (top : Z) (ic : Z * pen) : list call :=
  [ set_pen (snd ic);
    rectangle (chrome_x + fst ic * chrome_slice_width) top
              chrome_slice_width CHROME_HEIGHT ].

Definition chrome_band (top : Z) : list call :=
  flat_map (chrome_slice top) (enumerate chrome_colors).

Definition draw_chrome : list call :=
  chrome_band (COLUMN_Y - CHROME_HEIGHT)
  ++ chrome_band (COLUMN_Y + CANVAS_HEIGHT * SCALE).

(** ** The main loop (main.py, lines 169-202) *)

(** The body of the two raster loops for the cell [(cx, cy)]. *)
Definition render_cell (blobs : list Blob.t) (cy cx : Z) : list call :=
  let field_value := metaball_field (IZR cx) (IZR cy) blobs in
  if Rgtb field_value (25 / 10)
  then
    let intensity := Z.min (py_int (field_value * 50)) 255 in
    [ set_pen (create_pen intensity 105 180);
      rectangle (COLUMN_X + cx * SCALE) (COLUMN_Y + cy * SCALE) SCALE SCALE ]
  else [].

Definition render_metaballs (blobs : list Blob.t) : list call :=
  flat_map
    (fun cy => flat_map (render_cell blobs cy) (range CANVAS_WIDTH))
    (range CANVAS_HEIGHT).

(** [for blob in blobs: blob.update()] *)
Definition update_blobs (blobs : list Blob.t) : list Blob.t :=
  map Blob.update blobs.

(** The split loop: the blobs as the loop leaves them, and [new_blobs]. *)
Fixpoint split_pass (blobs : list Blob.t)
  : Rand (list Blob.t * list Blob.t) :=
  match blobs with
  | [] => ret ([], [])
  | blob :: rest =>
      bc <- Blob.split blob ;;
      rn <- split_pass rest ;;
      ret (fst bc :: fst rn,
           match snd bc with
           | Some child => child :: snd rn
           | None => snd rn
           end)
  end.

(** The physics part of one iteration: update, split, extend. *)
Definition step (blobs : list Blob.t) : Rand (list Blob.t) :=
  bn <- split_pass (update_blobs blobs) ;;
  ret (fst bn ++ snd bn).

Fixpoint steps (n : nat) (blobs : list Blob.t) : Rand (list Blob.t) :=
  match n with
  | O => ret blobs
  | S n' => blobs' <- step blobs ;; steps n' blobs'
  end.

(** One iteration of [while True]: the calls made and the new blob list. *)
Definition frame (blobs : list Blob.t) : Rand (list call * list Blob.t) :=
  blobs' <- step blobs ;;
  ret ([set_pen background; clear] ++ draw_chrome ++ render_metaballs blobs
       ++ [presto_update; sleep],
       blobs').

(** [n] iterations of [while True]: all the calls made, in order, and the
    blob list that is left. *)
Fixpoint run (n : nat) (blobs : list Blob.t)
  : Rand (list call * list Blob.t) :=
  match n with
  | O => ret ([], blobs)
  | S n' =>
      cb <- frame blobs ;;
      rest <- run n' (snd cb) ;;
      ret (fst cb ++ fst rest, snd rest)
  end.

(** The blob lists the program can hold: the initial list (the stream [s]
    read from position 0) and whatever [n] iterations make of it. *)
Definition reachable (s : nat -> R) (blobs : list Blob.t) : Prop :=
  exists fuel blobs0 k n,
    init_blobs fuel s 0%nat = (Some blobs0, k) /\
    fst (steps n blobs0 s k) = blobs.

(** ** [update] on rational numbers

    The same seven blocks of statements on blobs whose fields are rational
    numbers, where they can be evaluated: on such blobs the real-number
    [Blob.update] and this one agree ([to_R] carries one to the other), each
    field being put in lowest terms at the end. *)

Module QBlob.

Local Open Scope Q_scope.

Record t : Type := mk
  { x : Q; y : Q; r : Q; dx : Q; dy : Q; temperature : Q }.

Definition to_R (self : t) : Blob.t :=
  Blob.mk (Q2R (x self)) (Q2R (y self)) (Q2R (r self))
          (Q2R (dx self)) (Q2R (dy self)) (Q2R (temperature self)).

Definition Qgtb (a b : Q) : bool := negb (Qle_bool a b).
Definition Qltb (a b : Q) : bool := negb (Qle_bool b a).

Definition apply_gravity (self : t) : t :=
  mk (x self) (y self) (r self) (dx self) (dy self + (2 # 100))
     (temperature self).

Definition heat_or_cool (self : t) : t :=
  if Qgtb (y self) (70 - 70 * (15 # 100))
  then mk (x self) (y self) (r self) (dx self) (dy self - (5 # 100))
          (temperature self + (2 # 100))
  else mk (x self) (y self) (r self) (dx self) (dy self)
          (temperature self - (1 # 100)).

Definition clamp (v : Q) : Q :=
  if Qle_bool 1 v then (if Qle_bool 0 1 then 1 else 0)
  else if Qle_bool 0 v then v else 0.

Definition clamp_temperature (self : t) : t :=
  mk (x self) (y self) (r self) (dx self) (dy self)
     (clamp (temperature self)).

Definition apply_buoyancy (self : t) : t :=
  mk (x self) (y self) (r self) (dx self)
     (dy self - (5 # 100) * temperature self * 2) (temperature self).

Definition move (self : t) : t :=
  mk (x self + dx self) (y self + dy self) (r self) (dx self) (dy self)
     (temperature self).

Definition bounce (self : t) : t :=
  if Qltb (x self - r self) 0 || Qgtb (x self + r self) 20
  then mk (x self) (y self) (r self) (- dx self) (dy self)
          (temperature self)
  else self.

Definition reset (self : t) : t :=
  if Qgtb (y self - r self) 70
  then mk (x self) (70 - r self) (r self) (dx self) 0 (temperature self)
  else if Qltb (y self + r self) 0
  then mk (x self) (r self) (r self) (dx self) 0 (temperature self)
  else self.

Definition lowest_terms (self : t) : t :=
  mk (Qred (x self)) (Qred (y self)) (Qred (r self))
     (Qred (dx self)) (Qred (dy self)) (Qred (temperature self)).

Definition update (self : t) : t :=
  lowest_terms
    (reset (bounce (move (apply_buoyancy (clamp_temperature
       (heat_or_cool (apply_gravity self))))))).

End QBlob.

(** ** The field as the specification words it

    The Euclidean distance from the sample point to a blob's centre, what
    one blob contributes, and the sum over the blobs. *)

Definition distance (px py : R) (blob : Blob.t) : R :=
  sqrt ((px - Blob.x blob) ^ 2 + (py - Blob.y blob) ^ 2).

Definition contribution (px py : R) (blob : Blob.t) : R :=
  if Req_dec_T (distance px py blob) 0
  then 0
  else Blob.r blob / ((distance px py blob) ^ 2 + 1).

Definition field_sum (px py : R) (blobs : list Blob.t) : R :=
  fold_right (fun blob acc => contribution px py blob + acc) 0 blobs.

(** ** Quantities and invariants the properties speak of *)

Definition total_area (blobs : list Blob.t) : R :=
  fold_right (fun blob acc => Blob.area blob + acc) 0 blobs.

(** The largest area the initialisation loop can give to one blob: the area
    of a disc of radius [MIN_RADIUS + 2]. *)
Definition max_initial_area : R := PI * IZR (MIN_RADIUS + 2) ^ 2.

(** What holds of a blob when the initialisation loop has just made it. *)
Definition fresh (b : Blob.t) : Prop :=
  0 < Blob.r b <= IZR (MIN_RADIUS + 2) /\
  Blob.r b <= Blob.x b <= IZR CANVAS_WIDTH - Blob.r b /\
  Blob.r b <= Blob.y b <= IZR CANVAS_HEIGHT - Blob.r b /\
  - (5 / 10) <= Blob.dx b <= 5 / 10 /\
  - (1 / 10) <= Blob.dy b <= 1 / 10 /\
  Blob.temperature b = 0.

(** What holds of a blob throughout a run: a radius the initial loop can
    give, a drift of at most half a cell, and a disc that is inside the
    column horizontally or will be again after the next move. *)
Definition in_play (b : Blob.t) : Prop :=
  0 < Blob.r b <= IZR (MIN_RADIUS + 2) /\
  - (5 / 10) <= Blob.dx b <= 5 / 10 /\
  (Blob.r b <= Blob.x b <= IZR CANVAS_WIDTH - Blob.r b \/
   Blob.r b <= Blob.x b + Blob.dx b <= IZR CANVAS_WIDTH - Blob.r b).

(** A blob whose disc reaches at most half a cell beyond the column's walls
    and whose centre is at most one radius above the top or below the
    bottom, with a temperature between 0 and 1. *)
Definition near_column (b : Blob.t) : Prop :=
  Blob.r b - 1 / 2 <= Blob.x b <= IZR CANVAS_WIDTH - Blob.r b + 1 / 2 /\
  - Blob.r b <= Blob.y b <= IZR CANVAS_HEIGHT + Blob.r b /\
  0 <= Blob.temperature b <= 1.

(** The sum of the radii of a list of blobs. *)
Definition total_radius (blobs : list Blob.t) : R :=
  fold_right (fun blob acc => Blob.r blob + acc) 0 blobs.

(** The calls that paint: choosing a pen and filling a rectangle. *)
Definition is_drawing (c : call) : Prop :=
  match c with
  | set_pen _ | rectangle _ _ _ _ => True
  | clear | presto_update | sleep => False
  end.

(** A call that paints lava: a pen of the blob hue, or a block of one cell
    inside the column. *)
Definition lava_call (c : call) : Prop :=
  match c with
  | set_pen (red, green, blue) =>
      (125 <= red <= 255)%Z /\ green = 105%Z /\ blue = 180%Z
  | rectangle px py w h =>
      w = SCALE /\ h = SCALE /\
      (COLUMN_X <= px /\ px + w <= COLUMN_X + CANVAS_WIDTH * SCALE)%Z /\
      (COLUMN_Y <= py /\ py + h <= COLUMN_Y + CANVAS_HEIGHT * SCALE)%Z
  | clear | presto_update | sleep => False
  end.

(** A call that paints chrome: a pen of the gradient, or a slice as wide as
    [draw_chrome] makes them, inside the column's width and ending on the
    column's top edge or starting on its bottom edge. *)
Definition chrome_call (c : call) : Prop :=
  match c with
  | set_pen p => In p chrome_colors
  | rectangle px py w h =>
      w = chrome_slice_width /\ h = CHROME_HEIGHT /\
      (COLUMN_X <= px /\ px + w <= COLUMN_X + CANVAS_WIDTH * SCALE)%Z /\
      ((py + h)%Z = COLUMN_Y \/ py = (COLUMN_Y + CANVAS_HEIGHT * SCALE)%Z)
  | clear | presto_update | sleep => False
  end.

(** The rectangles of a trace, in the order they are filled. *)
Definition is_rectangle (c : call) : bool :=
  match c with rectangle _ _ _ _ => true | _ => false end.

Definition rectangles (trace : list call) : list call :=
  filter is_rectangle trace.

(** Counting the calls of a trace that clear the screen and that present
    it. *)
Definition is_clear (c : call) : bool :=
  match c with clear => true | _ => false end.

Definition is_presto_update (c : call) : bool :=
  match c with presto_update => true | _ => false end.

Definition count (p : call -> bool) (trace : list call) : nat :=
  length (filter p trace).

(** What [random.random()] promises: every draw lies in [0, 1). *)
Definition unit_draws (s : nat -> R) : Prop := forall k : nat, 0 <= s k < 1.

(** ** Sample inputs *)

(** A blob at rest well below the canvas: its top edge is at 95. *)
Definition sunk_blob : Blob.t := Blob.mk 10 100 5 0 0 0.

(** A blob above the split threshold, and one below it. *)
Definition big_blob : Blob.t := Blob.mk 10 35 13 0 0 0.
Definition small_blob : Blob.t := Blob.mk 10 35 6 0 0 0.

(** A blob falling inside the column, a hot blob in the heat zone, and a
    blob that has risen out through the top. *)
Definition falling_blob : Blob.t := Blob.mk 10 35 6 (1 / 4) (1 / 10) 0.
Definition heated_blob : Blob.t := Blob.mk 10 65 6 0 0 (1 / 2).
Definition risen_blob : Blob.t := Blob.mk 10 (- 20) 5 0 (- 1) 0.

(** A blob half a cell to the right of the cell (0, 0). *)
Definition edge_blob : Blob.t := Blob.mk (1 / 2) 0 (501 / 100) 0 0 0.

(** Two streams of float draws: every draw 7/32, on binary64, and every
    draw 18 * 2^-23, on binary32. *)
Definition draws_7_32 : nat -> spec_float :=
  fun _ => binary_normalize 53 1024 7 (-5) false.
Definition draws_18_ulp : nat -> spec_float :=
  fun _ => binary_normalize 24 128 18 (-23) false.

(** The smallest positive binary32 float, 2^-149. *)
Definition tiny32 : spec_float := S754_finite false 1 (-149).

(** A blob of an initial size in the middle of the column, half a cell to
    the right of the cell (10, 35). *)
Definition mid_blob : Blob.t := Blob.mk (21 / 2) 35 (501 / 100) 0 0 0.

(** The first blob the initialisation makes when every draw is 0. *)
Definition first_blob : QBlob.t :=
  QBlob.mk 5 5 5 (- (1 # 2))%Q (- (1 # 10))%Q 0.

(** The stream whose every draw is 0. *)
Definition zero_draws : nat -> R := fun _ => 0.

(** * Properties *)

(** ** Comparisons *)

Lemma Rgtb_true (a b : R) : Rgtb a b = true <-> a > b.
Proof. unfold Rgtb; destruct (Rgt_dec a b); split; intros; try discriminate; tauto. Qed.

Lemma Rgtb_false (a b : R) : Rgtb a b = false <-> a <= b.
Proof.
  unfold Rgtb; destruct (Rgt_dec a b); split; intros; try discriminate;
    try reflexivity; lra.
Qed.

Lemma Rltb_true (a b : R) : Rltb a b = true <-> a < b.
Proof. unfold Rltb; destruct (Rlt_dec a b); split; intros; try discriminate; tauto. Qed.

Lemma Rltb_false (a b : R) : Rltb a b = false <-> b <= a.
Proof.
  unfold Rltb; destruct (Rlt_dec a b); split; intros; try discriminate;
    try reflexivity; lra.
Qed.

(** Split on the next comparison in the goal and record what it says. *)
Ltac cmp_case :=
  match goal with
  | |- context [Rgtb ?a ?b] =>
      let E := fresh "E" in
      destruct (Rgtb a b) eqn:E;
      [ apply Rgtb_true in E | apply Rgtb_false in E ]
  | |- context [Rltb ?a ?b] =>
      let E := fresh "E" in
      destruct (Rltb a b) eqn:E;
      [ apply Rltb_true in E | apply Rltb_false in E ]
  end.

Ltac blob_simpl :=
  cbn [Blob.x Blob.y Blob.r Blob.dx Blob.dy Blob.temperature
       Blob.set_x Blob.set_y Blob.set_r Blob.set_dx Blob.set_dy
       Blob.set_temperature orb andb fst snd] in *.

Ltac unfold_update :=
  unfold Blob.update, Blob.reset, Blob.before_reset, Blob.bounce, Blob.move,
    Blob.apply_buoyancy, Blob.clamp_temperature, Blob.heat_or_cool,
    Blob.apply_gravity in *.

Ltac unfold_consts :=
  unfold TOTAL_AREA, HEAT_ZONE, GRAVITY, BUOYANCY, COOLING_RATE, HEATING_RATE,
    COLUMN_AREA, CANVAS_WIDTH, CANVAS_HEIGHT, SCALE, MAX_RADIUS, MIN_RADIUS
    in *.

Lemma clamp_unit (v : R) : 0 <= Rmax 0 (Rmin 1 v) <= 1.
Proof.
  unfold Rmax, Rmin.
  destruct (Rle_dec 1 v); destruct (Rle_dec 0 _); lra.
Qed.

(** ** What [update] does, field by field *)

Lemma bounce_r b : Blob.r (Blob.bounce b) = Blob.r b.
Proof. unfold Blob.bounce; destruct (_ || _); reflexivity. Qed.

Lemma bounce_y b : Blob.y (Blob.bounce b) = Blob.y b.
Proof. unfold Blob.bounce; destruct (_ || _); reflexivity. Qed.

Lemma bounce_dy b : Blob.dy (Blob.bounce b) = Blob.dy b.
Proof. unfold Blob.bounce; destruct (_ || _); reflexivity. Qed.

Lemma bounce_temperature b :
  Blob.temperature (Blob.bounce b) = Blob.temperature b.
Proof. unfold Blob.bounce; destruct (_ || _); reflexivity. Qed.

Lemma heat_or_cool_r b : Blob.r (Blob.heat_or_cool b) = Blob.r b.
Proof. unfold Blob.heat_or_cool; destruct (Rgtb _ _); reflexivity. Qed.

Lemma before_reset_r b : Blob.r (Blob.before_reset b) = Blob.r b.
Proof.
  unfold Blob.before_reset. rewrite bounce_r. cbn.
  rewrite heat_or_cool_r. reflexivity.
Qed.

Lemma before_reset_temperature b :
  0 <= Blob.temperature (Blob.before_reset b) <= 1.
Proof.
  unfold Blob.before_reset. rewrite bounce_temperature. cbn.
  apply clamp_unit.
Qed.

Lemma reset_r b : Blob.r (Blob.reset b) = Blob.r b.
Proof. unfold Blob.reset; repeat cmp_case; reflexivity. Qed.

Lemma reset_x b : Blob.x (Blob.reset b) = Blob.x b.
Proof. unfold Blob.reset; repeat cmp_case; reflexivity. Qed.

Lemma reset_dx b : Blob.dx (Blob.reset b) = Blob.dx b.
Proof. unfold Blob.reset; repeat cmp_case; reflexivity. Qed.

Lemma reset_temperature b :
  Blob.temperature (Blob.reset b) = Blob.temperature b.
Proof. unfold Blob.reset; repeat cmp_case; reflexivity. Qed.

Lemma update_r b : Blob.r (Blob.update b) = Blob.r b.
Proof. unfold Blob.update. rewrite reset_r. apply before_reset_r. Qed.

(** C10: [update] leaves the radius as it was, and the temperature it
    leaves lies between 0 and 1. *)
Theorem update_keeps_radius_and_clamps_temperature (b : Blob.t) :
  Blob.r (Blob.update b) = Blob.r b /\
  0 <= Blob.temperature (Blob.update b) <= 1.
Proof.
  split.
  - apply update_r.
  - unfold Blob.update. rewrite reset_temperature.
    apply before_reset_temperature.
Qed.

(** ** The bottom reset *)

Ltac eval_update :=
  unfold_update; unfold_consts; blob_simpl;
  repeat (cmp_case; blob_simpl; try lra);
  unfold Rmax, Rmin in *;
  repeat (destruct (Rle_dec _ _); try lra).

Lemma sunk_blob_before_reset_y :
  Blob.y (Blob.before_reset sunk_blob) = 100 - 32 / 1000.
Proof. unfold sunk_blob. eval_update. Qed.

Lemma sunk_blob_update_y : Blob.y (Blob.update sunk_blob) = 65.
Proof. unfold sunk_blob. eval_update. Qed.

(** C5, as stated, fails: [sunk_blob] lies entirely below the canvas before
    and after the move, the bottom branch fires, and the blob is put back
    with its centre at 65, so that [y - r] is 60 and not 70. *)
Lemma bottom_reset_not_at_y_minus_r :
  Blob.y sunk_blob - Blob.r sunk_blob > IZR CANVAS_HEIGHT /\
  Blob.y (Blob.before_reset sunk_blob) - Blob.r (Blob.before_reset sunk_blob)
    > IZR CANVAS_HEIGHT /\
  ~ (Blob.y (Blob.update sunk_blob) - Blob.r (Blob.update sunk_blob)
       = IZR CANVAS_HEIGHT /\
     Blob.dy (Blob.update sunk_blob) = 0).
Proof.
  rewrite before_reset_r, update_r, sunk_blob_before_reset_y,
    sunk_blob_update_y.
  unfold sunk_blob, CANVAS_HEIGHT; cbn [Blob.y Blob.r].
  split; [lra | split; [lra | intros [H _]; lra]].
Qed.

(** C5, amended: when the bottom branch of [update] fires (the moved blob
    lies entirely below the canvas), the blob is put back with its lower
    edge on the canvas bottom, [y + r = CANVAS_HEIGHT], and [dy] is 0. *)
Theorem bottom_reset_is_flush (b : Blob.t) :
  Blob.y (Blob.before_reset b) - Blob.r (Blob.before_reset b)
    > IZR CANVAS_HEIGHT ->
  Blob.y (Blob.update b) + Blob.r (Blob.update b) = IZR CANVAS_HEIGHT /\
  Blob.dy (Blob.update b) = 0.
Proof.
  intros Hlow. unfold Blob.update, Blob.reset.
  apply Rgtb_true in Hlow. rewrite Hlow. cbn. split; [ring | reflexivity].
Qed.

Lemma bottom_reset_is_flush_witness :
  Blob.y (Blob.update sunk_blob) + Blob.r (Blob.update sunk_blob)
    = IZR CANVAS_HEIGHT /\
  Blob.dy (Blob.update sunk_blob) = 0.
Proof.
  apply (bottom_reset_is_flush sunk_blob).
  rewrite before_reset_r, sunk_blob_before_reset_y.
  unfold sunk_blob, CANVAS_HEIGHT; cbn [Blob.r]. lra.
Defined.

(** ** The metaball field *)

Lemma distance_sqr (px py : R) (b : Blob.t) :
  (distance px py b) ^ 2
  = (px - Blob.x b) * (px - Blob.x b) + (py - Blob.y b) * (py - Blob.y b).
Proof.
  unfold distance.
  rewrite <- Rsqr_pow2, Rsqr_sqrt; [ring |].
  apply Rplus_le_le_0_compat; apply pow2_ge_0.
Qed.

Lemma distance_zero_iff (px py : R) (b : Blob.t) :
  distance px py b = 0 <->
  (px - Blob.x b) * (px - Blob.x b) + (py - Blob.y b) * (py - Blob.y b) <= 0.
Proof.
  split; intros H.
  - rewrite <- distance_sqr, H. lra.
  - unfold distance.
    assert (H1 := pow2_ge_0 (px - Blob.x b)).
    assert (H2 := pow2_ge_0 (py - Blob.y b)).
    replace ((px - Blob.x b) ^ 2 + (py - Blob.y b) ^ 2) with 0 by lra.
    apply sqrt_0.
Qed.

Lemma field_add_contribution (px py v : R) (b : Blob.t) :
  field_add px py v b = v + contribution px py b.
Proof.
  unfold field_add, contribution.
  destruct (Req_dec_T (distance px py b) 0) as [Hz | Hnz].
  - apply distance_zero_iff in Hz.
    apply Rgtb_false in Hz. rewrite Hz. ring.
  - assert (Hpos : (px - Blob.x b) * (px - Blob.x b)
                   + (py - Blob.y b) * (py - Blob.y b) > 0).
    { destruct (Rle_or_lt
        ((px - Blob.x b) * (px - Blob.x b)
         + (py - Blob.y b) * (py - Blob.y b)) 0) as [Hle | Hlt].
      - apply distance_zero_iff in Hle. contradiction.
      - exact Hlt. }
    apply Rgtb_true in Hpos. rewrite Hpos, distance_sqr. reflexivity.
Qed.

Lemma fold_field_add (px py : R) (blobs : list Blob.t) (v : R) :
  fold_left (field_add px py) blobs v = v + field_sum px py blobs.
Proof.
  revert v. induction blobs as [| b blobs IH]; intros v.
  - cbn [fold_left]. unfold field_sum; cbn [fold_right]. ring.
  - cbn [fold_left]. rewrite IH, field_add_contribution.
    change (field_sum px py (b :: blobs))
      with (contribution px py b + field_sum px py blobs).
    ring.
Qed.

Lemma metaball_field_nil (px py : R) : metaball_field px py [] = 0.
Proof. reflexivity. Qed.

(** C6: the field is the sum over the blobs of [r / (distance^2 + 1)], a
    blob at distance 0 adding nothing; with one blob only, the field at that
    blob's centre is 0. *)
Theorem metaball_field_is_sum (px py : R) (blobs : list Blob.t) :
  metaball_field px py blobs = field_sum px py blobs /\
  (forall b : Blob.t, distance px py b = 0 -> contribution px py b = 0) /\
  (forall b : Blob.t,
     distance px py b <> 0 ->
     contribution px py b = Blob.r b / ((distance px py b) ^ 2 + 1)) /\
  (forall b : Blob.t, metaball_field (Blob.x b) (Blob.y b) [b] = 0).
Proof.
  repeat split.
  - unfold metaball_field. rewrite fold_field_add. ring.
  - intros b Hz. unfold contribution.
    destruct (Req_dec_T (distance px py b) 0); [reflexivity | contradiction].
  - intros b Hnz. unfold contribution.
    destruct (Req_dec_T (distance px py b) 0); [contradiction | reflexivity].
  - intros b. unfold metaball_field; cbn. unfold field_add.
    assert (H : (Blob.x b - Blob.x b) * (Blob.x b - Blob.x b)
                + (Blob.y b - Blob.y b) * (Blob.y b - Blob.y b) <= 0) by nra.
    apply Rgtb_false in H. rewrite H. reflexivity.
Qed.

(** ** Running the random computations *)

Lemma uniform_run (a b : R) (s : nat -> R) (n : nat) :
  uniform a b s n = (a + (b - a) * s n, S n).
Proof. reflexivity. Qed.

Lemma uniform_bounds (a b u : R) :
  a <= b -> 0 <= u < 1 -> a <= a + (b - a) * u <= b.
Proof. intros Hab [H0 H1]. split; nra. Qed.

Lemma init_run (x0 y0 r0 : R) (s : nat -> R) (n : nat) :
  Blob.init x0 y0 r0 s n
  = (Blob.mk x0 y0 r0
       (- (5 / 10) + (5 / 10 - - (5 / 10)) * s n)
       (- (1 / 10) + (1 / 10 - - (1 / 10)) * s (S n)) 0,
     S (S n)).
Proof. reflexivity. Qed.

Lemma split_threshold : IZR MAX_RADIUS * (8 / 10) = 12.
Proof. unfold MAX_RADIUS. lra. Qed.

Lemma split_run_small (b : Blob.t) (s : nat -> R) (n : nat) :
  Blob.r b <= 12 -> Blob.split b s n = (b, None, n).
Proof.
  intros H. unfold Blob.split.
  rewrite <- split_threshold in H. apply Rgtb_false in H. rewrite H.
  reflexivity.
Qed.

Lemma split_run_big (b : Blob.t) (s : nat -> R) (n : nat) :
  Blob.r b > 12 ->
  exists child : Blob.t,
    Blob.split b s n
    = (Blob.set_r (sqrt (Blob.area b / 2 / PI)) b, Some child, (4 + n)%nat) /\
    Blob.r child = sqrt (Blob.area b / 2 / PI) /\
    Blob.x child
    = Blob.x b + (- sqrt (Blob.area b / 2 / PI)
                  + (sqrt (Blob.area b / 2 / PI)
                     - - sqrt (Blob.area b / 2 / PI)) * s n) /\
    Blob.y child
    = Blob.y b + (- sqrt (Blob.area b / 2 / PI)
                  + (sqrt (Blob.area b / 2 / PI)
                     - - sqrt (Blob.area b / 2 / PI)) * s (S n)).
Proof.
  intros H. unfold Blob.split.
  rewrite <- split_threshold in H. apply Rgtb_true in H. rewrite H.
  eexists. split; [reflexivity |]. cbn. repeat split; reflexivity.
Qed.

Lemma halved_radius_area (r0 : R) :
  PI * sqrt (PI * r0 ^ 2 / 2 / PI) ^ 2 = PI * r0 ^ 2 / 2.
Proof.
  assert (HPI := PI_RGT_0).
  replace (PI * r0 ^ 2 / 2 / PI) with (r0 ^ 2 / 2) by (field; lra).
  rewrite pow2_sqrt; [lra |].
  assert (H := pow2_ge_0 r0). lra.
Qed.

(** ** split *)

(** C1: a blob with [r > 0.8 * MAX_RADIUS] comes out of [split] with half
    its area, together with exactly one child of that same area whose centre
    is within the child's radius of the parent's position on each axis; a
    blob with [r <= 0.8 * MAX_RADIUS] comes out unchanged, without a child
    and without a draw. *)
Theorem split_halves_or_leaves (s : nat -> R) (n : nat) (b : Blob.t) :
  unit_draws s ->
  (Blob.r b > IZR MAX_RADIUS * (8 / 10) ->
   exists child : Blob.t,
     snd (fst (Blob.split b s n)) = Some child /\
     Blob.area (fst (fst (Blob.split b s n))) = Blob.area b / 2 /\
     Blob.area child = Blob.area (fst (fst (Blob.split b s n))) /\
     Blob.x (fst (fst (Blob.split b s n))) = Blob.x b /\
     Blob.y (fst (fst (Blob.split b s n))) = Blob.y b /\
     Rabs (Blob.x child - Blob.x b) <= Blob.r child /\
     Rabs (Blob.y child - Blob.y b) <= Blob.r child) /\
  (Blob.r b <= IZR MAX_RADIUS * (8 / 10) ->
   Blob.split b s n = (b, None, n)).
Proof.
  intros Hs. rewrite split_threshold. split.
  - intros Hbig.
    destruct (split_run_big b s n Hbig) as (child & Hrun & Hr & Hx & Hy).
    exists child. rewrite Hrun. cbn [fst snd].
    assert (Hcr := sqrt_pos (Blob.area b / 2 / PI)).
    assert (Hu := uniform_bounds (- sqrt (Blob.area b / 2 / PI))
                    (sqrt (Blob.area b / 2 / PI))).
    assert (Harea :
      Blob.area (Blob.set_r (sqrt (Blob.area b / 2 / PI)) b)
      = Blob.area b / 2).
    { unfold Blob.area at 1 3. cbn [Blob.r Blob.set_r].
      apply halved_radius_area. }
    repeat split.
    + exact Harea.
    + rewrite Harea. unfold Blob.area at 1. rewrite Hr.
      unfold Blob.area. apply halved_radius_area.
    + rewrite Hx, Hr. apply Rabs_le.
      specialize (Hu (s n) ltac:(lra) (Hs n)). lra.
    + rewrite Hy, Hr. apply Rabs_le.
      specialize (Hu (s (S n)) ltac:(lra) (Hs (S n))). lra.
  - intros Hsmall. apply split_run_small. exact Hsmall.
Qed.

Lemma zero_draws_unit : unit_draws zero_draws.
Proof. intros k. unfold zero_draws. lra. Defined.

Lemma split_halves_or_leaves_witness :
  (exists child : Blob.t,
     snd (fst (Blob.split big_blob zero_draws 0%nat)) = Some child /\
     Blob.area (fst (fst (Blob.split big_blob zero_draws 0%nat)))
       = Blob.area big_blob / 2 /\
     Blob.area child
       = Blob.area (fst (fst (Blob.split big_blob zero_draws 0%nat))) /\
     Blob.x (fst (fst (Blob.split big_blob zero_draws 0%nat))) = Blob.x big_blob /\
     Blob.y (fst (fst (Blob.split big_blob zero_draws 0%nat))) = Blob.y big_blob /\
     Rabs (Blob.x child - Blob.x big_blob) <= Blob.r child /\
     Rabs (Blob.y child - Blob.y big_blob) <= Blob.r child) /\
  Blob.split small_blob zero_draws 0%nat = (small_blob, None, 0%nat).
Proof.
  split.
  - apply (split_halves_or_leaves zero_draws 0%nat big_blob zero_draws_unit).
    unfold big_blob, MAX_RADIUS; cbn [Blob.r]. lra.
  - apply (split_halves_or_leaves zero_draws 0%nat small_blob zero_draws_unit).
    unfold small_blob, MAX_RADIUS; cbn [Blob.r]. lra.
Defined.

(** ** The initialisation loop *)

Lemma init_loop_done (fuel : nat) (blobs : list Blob.t) (rem : R)
    (s : nat -> R) (n : nat) :
  rem <= 0 -> init_loop fuel blobs rem s n = (Some blobs, n).
Proof.
  intros H. apply Rgtb_false in H.
  destruct fuel; cbn [init_loop]; rewrite H; reflexivity.
Qed.

Lemma init_loop_out_of_fuel (blobs : list Blob.t) (rem : R)
    (s : nat -> R) (n : nat) :
  rem > 0 -> init_loop 0 blobs rem s n = (None, n).
Proof.
  intros H. apply Rgtb_true in H. cbn [init_loop]. rewrite H. reflexivity.
Qed.

(** One iteration, with the draws written out: the radius reads draw [n],
    the position draws [n + 1] and [n + 2], the constructor draws [n + 3]
    and [n + 4]. *)
Lemma init_loop_unfold (fuel : nat) (blobs : list Blob.t) (rem : R)
    (s : nat -> R) (n : nat) :
  rem > 0 ->
  init_loop (S fuel) blobs rem s n
  = let radius0 :=
      IZR MIN_RADIUS + (IZR (MIN_RADIUS + 2) - IZR MIN_RADIUS) * s n in
    let radius :=
      if Rgtb (PI * radius0 ^ 2) rem then sqrt (rem / PI) else radius0 in
    init_loop fuel
      (blobs ++
       [Blob.mk
          (radius + (IZR CANVAS_WIDTH - radius - radius) * s (S n))
          (radius + (IZR CANVAS_HEIGHT - radius - radius) * s (S (S n)))
          radius
          (- (5 / 10) + (5 / 10 - - (5 / 10)) * s (S (S (S n))))
          (- (1 / 10) + (1 / 10 - - (1 / 10)) * s (S (S (S (S n)))))
          0])
      (rem - PI * radius ^ 2) s (S (S (S (S (S n))))).
Proof.
  intros H. apply Rgtb_true in H. cbn [init_loop]. rewrite H. reflexivity.
Qed.

Lemma PI_gt_3 : 3 < PI.
Proof. assert (H := PI2_3_2). lra. Qed.

Lemma sqrt_area_radius (a : R) : 0 <= a -> PI * sqrt (a / PI) ^ 2 = a.
Proof.
  intros Ha. assert (HPI := PI_RGT_0).
  rewrite pow2_sqrt; [field; lra |].
  apply Rmult_le_pos; [lra |]. left. apply Rinv_0_lt_compat. exact HPI.
Qed.

(** The radius the loop settles on: positive, at most [MIN_RADIUS + 2], never
    more than what remains, and either at least [MIN_RADIUS] or using up all
    that remains. *)
Lemma chosen_radius (rem u : R) :
  rem > 0 -> 0 <= u < 1 ->
  let radius0 :=
    IZR MIN_RADIUS + (IZR (MIN_RADIUS + 2) - IZR MIN_RADIUS) * u in
  let radius :=
    if Rgtb (PI * radius0 ^ 2) rem then sqrt (rem / PI) else radius0 in
  0 < radius <= IZR (MIN_RADIUS + 2) /\
  PI * radius ^ 2 <= rem /\
  (PI * radius ^ 2 = rem \/ 25 * PI <= PI * radius ^ 2).
Proof.
  intros Hrem Hu radius0 radius.
  assert (HPI := PI_RGT_0).
  assert (H0 : 5 <= radius0 <= 7).
  { unfold radius0, MIN_RADIUS. change (5 + 2)%Z with 7%Z. lra. }
  change (IZR (MIN_RADIUS + 2)) with 7.
  subst radius. cmp_case.
  - assert (Hpos : 0 < rem / PI).
    { apply Rmult_lt_0_compat; [lra |]. apply Rinv_0_lt_compat. exact HPI. }
    assert (Hs := sqrt_lt_R0 _ Hpos).
    assert (Hlt : sqrt (rem / PI) < radius0).
    { rewrite <- (sqrt_pow2 radius0) by lra.
      apply sqrt_lt_1_alt. split; [lra |].
      apply Rmult_lt_reg_l with PI; [exact HPI |].
      replace (PI * (rem / PI)) with rem by (field; lra). lra. }
    rewrite sqrt_area_radius by lra.
    repeat split; try lra.
  - repeat split; try lra. right.
    assert (H25 : 25 <= radius0 ^ 2) by nra. nra.
Qed.

(** One iteration appends one fresh blob and takes its area off what
    remains. *)
Lemma init_loop_step (fuel : nat) (blobs : list Blob.t) (rem : R)
    (s : nat -> R) (n : nat) :
  unit_draws s -> rem > 0 ->
  exists b : Blob.t,
    init_loop (S fuel) blobs rem s n
    = init_loop fuel (blobs ++ [b]) (rem - Blob.area b) s
        (S (S (S (S (S n))))) /\
    fresh b /\
    Blob.area b <= rem /\
    (Blob.area b = rem \/ 25 * PI <= Blob.area b).
Proof.
  intros Hs Hrem. rewrite init_loop_unfold by exact Hrem.
  destruct (chosen_radius rem (s n) Hrem (Hs n)) as (Hr & Hle & Hcase).
  cbv zeta in *.
  set (radius := if Rgtb _ rem then _ else _) in *.
  match goal with |- context [blobs ++ [?b]] => exists b end.
  split; [reflexivity |].
  unfold fresh, Blob.area. blob_simpl.
  change (IZR (MIN_RADIUS + 2)) with 7 in *.
  change (IZR CANVAS_WIDTH) with 20. change (IZR CANVAS_HEIGHT) with 70.
  assert (H1 := Hs (S n)). assert (H2 := Hs (S (S n))).
  assert (H3 := Hs (S (S (S n)))). assert (H4 := Hs (S (S (S (S n))))).
  repeat split; try lra; try nra; assumption.
Qed.

Lemma total_area_app (l1 l2 : list Blob.t) :
  total_area (l1 ++ l2) = total_area l1 + total_area l2.
Proof.
  induction l1 as [| b l1 IH]; unfold total_area in *; cbn [app fold_right].
  - lra.
  - rewrite IH. lra.
Qed.

(** Whatever list the loop returns extends the list it was given by fresh
    blobs whose areas add up to what remained. *)
Lemma init_loop_sound (s : nat -> R) (Hs : unit_draws s) (fuel : nat) :
  forall (blobs : list Blob.t) (rem : R) (n : nat)
         (l : list Blob.t) (k : nat),
    0 <= rem ->
    init_loop fuel blobs rem s n = (Some l, k) ->
    exists new : list Blob.t,
      l = blobs ++ new /\ Forall fresh new /\ total_area new = rem.
Proof.
  induction fuel as [| fuel IH]; intros blobs rem n l k Hrem Hrun.
  - destruct (Rle_lt_dec rem 0) as [Hle | Hlt].
    + rewrite init_loop_done in Hrun by exact Hle.
      injection Hrun as <- _. exists []. rewrite app_nil_r.
      repeat split; [constructor | unfold total_area; cbn [fold_right]; lra].
    + rewrite init_loop_out_of_fuel in Hrun by exact Hlt. discriminate.
  - destruct (Rle_lt_dec rem 0) as [Hle | Hlt].
    + rewrite init_loop_done in Hrun by exact Hle.
      injection Hrun as <- _. exists []. rewrite app_nil_r.
      repeat split; [constructor | unfold total_area; cbn [fold_right]; lra].
    + destruct (init_loop_step fuel blobs rem s n Hs Hlt)
        as (b & Hstep & Hfresh & Hle & _).
      rewrite Hstep in Hrun.
      apply IH in Hrun; [| lra].
      destruct Hrun as (new & -> & Hall & Htot).
      exists (b :: new). rewrite <- app_assoc. cbn [app].
      repeat split; [constructor; assumption |].
      change (total_area (b :: new)) with (Blob.area b + total_area new).
      lra.
Qed.

(** Fuel for [rem / (25 * PI)] iterations, rounded up, is enough. *)
Lemma init_loop_terminates (s : nat -> R) (Hs : unit_draws s) (fuel : nat) :
  forall (blobs : list Blob.t) (rem : R) (n : nat),
    rem <= 25 * PI * INR fuel ->
    exists (l : list Blob.t) (k : nat),
      init_loop fuel blobs rem s n = (Some l, k).
Proof.
  assert (HPI := PI_RGT_0).
  induction fuel as [| fuel IH]; intros blobs rem n Hrem.
  - cbn [INR] in Hrem. rewrite init_loop_done by lra. eauto.
  - destruct (Rle_lt_dec rem 0) as [Hle | Hlt].
    + rewrite init_loop_done by exact Hle. eauto.
    + destruct (init_loop_step fuel blobs rem s n Hs Hlt)
        as (b & Hstep & _ & _ & Hcase).
      rewrite Hstep. apply IH.
      rewrite S_INR in Hrem.
      assert (H0 : 0 <= 25 * PI * INR fuel).
      { apply Rmult_le_pos; [lra | apply pos_INR]. }
      destruct Hcase as [Heq | Hbig]; lra.
Qed.

(** More fuel does not change a result already reached. *)
Lemma init_loop_more_fuel (s : nat -> R) (Hs : unit_draws s) (fuel : nat) :
  forall (blobs : list Blob.t) (rem : R) (n : nat)
         (l : list Blob.t) (k : nat) (fuel' : nat),
    (fuel <= fuel')%nat ->
    init_loop fuel blobs rem s n = (Some l, k) ->
    init_loop fuel' blobs rem s n = (Some l, k).
Proof.
  induction fuel as [| fuel IH]; intros blobs rem n l k fuel' Hle Hrun.
  - destruct (Rle_lt_dec rem 0) as [H0 | H0].
    + rewrite init_loop_done in * by exact H0. exact Hrun.
    + rewrite init_loop_out_of_fuel in Hrun by exact H0. discriminate.
  - destruct (Rle_lt_dec rem 0) as [H0 | H0].
    + rewrite init_loop_done in * by exact H0. exact Hrun.
    + destruct fuel' as [| fuel']; [lia |].
      rewrite init_loop_unfold in * by exact H0. cbv zeta in *.
      apply IH; [lia | exact Hrun].
Qed.

Lemma TOTAL_AREA_value : TOTAL_AREA = 2520.
Proof. unfold TOTAL_AREA, COLUMN_AREA, CANVAS_WIDTH, CANVAS_HEIGHT, SCALE.
  change (IZR (20 * 70 * 6 ^ 2)) with 50400. lra. Qed.

Lemma init_fuel_enough : TOTAL_AREA <= 25 * PI * INR 34.
Proof.
  rewrite TOTAL_AREA_value. assert (H := PI_gt_3).
  replace (INR 34) with 34 by (rewrite (INR_IZR_INZ 34); reflexivity). lra.
Qed.

(** ** The initialisation loop on floats *)

(** [FloatInit.pi] is [math.pi]: 0x1.921fb54442d18p+1 on binary64 and
    0x1.921fb6p+1 on binary32. *)
Lemma float_pi_values :
  FloatInit.pi 53 1024 = S754_finite false 7074237752028440 (-51) /\
  FloatInit.pi 24 128 = S754_finite false 13176795 (-22).
Proof. split; vm_compute; reflexivity. Qed.

(** [FloatInit.TOTAL_AREA] is 2520.0 in both formats. *)
Lemma float_TOTAL_AREA_values :
  FloatInit.TOTAL_AREA 53 1024 = FloatInit.of_Z 53 1024 2520 /\
  FloatInit.TOTAL_AREA 24 128 = FloatInit.of_Z 24 128 2520.
Proof. split; vm_compute; reflexivity. Qed.

Lemma float_init_loop_run (prec emax : Z) (s : nat -> spec_float) (k : nat) :
  forall (st st' : FloatInit.state) (fuel : nat),
    FloatInit.run prec emax k s st = Some st' ->
    FloatInit.init_loop prec emax (k + fuel) s st
    = FloatInit.init_loop prec emax fuel s st'.
Proof.
  induction k as [| k IH]; intros st st' fuel Hrun; cbn [FloatInit.run] in Hrun.
  - injection Hrun as <-. reflexivity.
  - cbn [Nat.add FloatInit.init_loop].
    destruct (FloatInit.init_step prec emax s st) as [st1 |];
      [apply IH, Hrun | discriminate].
Qed.

Lemma float_init_loop_more_fuel (prec emax : Z) (s : nat -> spec_float)
    (fuel : nat) :
  forall (st res : FloatInit.state) (m : nat),
    FloatInit.init_loop prec emax fuel s st = Some res ->
    FloatInit.init_loop prec emax (fuel + m) s st = Some res.
Proof.
  induction fuel as [| fuel IH]; intros st res m Hrun.
  - cbn [FloatInit.init_loop] in Hrun. cbn [Nat.add].
    destruct m; cbn [FloatInit.init_loop];
      destruct (FloatInit.init_step prec emax s st);
      try discriminate; exact Hrun.
  - cbn [Nat.add FloatInit.init_loop] in *.
    destruct (FloatInit.init_step prec emax s st) as [st1 |];
      [apply IH, Hrun | exact Hrun].
Qed.

(** On binary32, once [remaining_area] is the smallest positive float the
    loop cannot leave: [remaining_area / pi] rounds to 0, the blob gets
    radius 0 and area 0, and [remaining_area] stays as it is. *)
Lemma float_init_loop_stuck (fuel : nat) :
  forall (blobs : list FloatInit.blob) (n : nat),
    FloatInit.init_loop 24 128 fuel draws_18_ulp (blobs, tiny32, n) = None.
Proof.
  induction fuel as [| fuel IH]; intros blobs n;
    assert (Hstep : exists b : FloatInit.blob,
              FloatInit.init_step 24 128 draws_18_ulp (blobs, tiny32, n)
              = Some (blobs ++ [b], tiny32, (5 + n)%nat))
      by (eexists; vm_compute; reflexivity);
    destruct Hstep as (b & Hstep);
    cbn [FloatInit.init_loop]; rewrite Hstep; [reflexivity | apply IH].
Qed.

(** With every draw 18 * 2^-23 the binary32 loop reaches that state after
    39 blobs. *)
Lemma float_init_reaches_tiny :
  exists (blobs : list FloatInit.blob) (n : nat),
    FloatInit.run 24 128 39 draws_18_ulp ([], FloatInit.TOTAL_AREA 24 128, 0%nat)
    = Some (blobs, tiny32, n).
Proof. do 2 eexists. vm_compute. reflexivity. Qed.

(** With every draw 7/32 the binary64 loop ends after 28 blobs. *)
Lemma float_init_run_7_32 :
  exists (blobs : list FloatInit.blob) (rem : spec_float) (n : nat),
    FloatInit.init_blobs 53 1024 28 draws_7_32 = Some (blobs, rem, n) /\
    length blobs = 28%nat /\
    SFltb rem (FloatInit.of_Z 53 1024 0) = true /\
    SFltb (FloatInit.TOTAL_AREA 53 1024) (FloatInit.total_area 53 1024 blobs)
    = true.
Proof.
  do 3 eexists. split; [vm_compute; reflexivity |].
  repeat split; vm_compute; reflexivity.
Qed.

(** C7 does not hold of the program, whose arithmetic is on floats.  On
    binary64 with every draw 7/32 the loop ends (28 iterations of fuel or
    more all give the same state) with [remaining_area] below zero and with
    areas that add up, in floats, to more than [TOTAL_AREA]: the last blob
    was shrunk to [sqrt(remaining_area / pi)], but [pi * radius**2] comes
    out above [remaining_area].  On binary32 with every draw 18 * 2^-23 the
    loop never ends, whatever the fuel.  And the budget itself, 5% of the
    column's area in screen pixels, is more than the whole canvas in the
    cells the radii are measured in. *)
Theorem init_loop_misses_budget_on_floats :
  (exists (blobs : list FloatInit.blob) (rem : spec_float) (n : nat),
     (forall fuel : nat, (28 <= fuel)%nat ->
        FloatInit.init_blobs 53 1024 fuel draws_7_32 = Some (blobs, rem, n)) /\
     length blobs = 28%nat /\
     SFltb rem (FloatInit.of_Z 53 1024 0) = true /\
     SFltb (FloatInit.TOTAL_AREA 53 1024)
           (FloatInit.total_area 53 1024 blobs) = true) /\
  (forall fuel : nat,
     FloatInit.init_blobs 24 128 fuel draws_18_ulp = None) /\
  IZR (CANVAS_WIDTH * CANVAS_HEIGHT) < TOTAL_AREA.
Proof.
  split; [| split].
  - destruct float_init_run_7_32 as (blobs & rem & n & Hrun & Hlen & Hneg & Hsum).
    exists blobs, rem, n. repeat split; try assumption.
    intros fuel Hfuel. replace fuel with (28 + (fuel - 28))%nat by lia.
    apply float_init_loop_more_fuel. exact Hrun.
  - intros fuel.
    destruct (FloatInit.init_blobs 24 128 fuel draws_18_ulp) as [res |] eqn:E;
      [exfalso | reflexivity].
    unfold FloatInit.init_blobs in E.
    apply float_init_loop_more_fuel with (m := 39%nat) in E.
    destruct float_init_reaches_tiny as (blobs & n & Hreach).
    rewrite Nat.add_comm in E.
    rewrite (float_init_loop_run 24 128 draws_18_ulp 39 _ _ fuel Hreach) in E.
    rewrite float_init_loop_stuck in E. discriminate E.
  - rewrite TOTAL_AREA_value.
    change (IZR (CANVAS_WIDTH * CANVAS_HEIGHT)) with 1400. lra.
Qed.

(** * Further properties of the code *)

(** ** update: horizontal motion *)

Lemma bounce_x b : Blob.x (Blob.bounce b) = Blob.x b.
Proof. unfold Blob.bounce; destruct (_ || _); reflexivity. Qed.

Lemma before_reset_x b : Blob.x (Blob.before_reset b) = Blob.x b + Blob.dx b.
Proof.
  unfold Blob.before_reset. rewrite bounce_x.
  unfold Blob.move, Blob.apply_buoyancy, Blob.clamp_temperature,
    Blob.heat_or_cool, Blob.apply_gravity.
  destruct (Rgtb _ _); reflexivity.
Qed.

Lemma update_x b : Blob.x (Blob.update b) = Blob.x b + Blob.dx b.
Proof. unfold Blob.update. rewrite reset_x. apply before_reset_x. Qed.

Lemma update_dx b :
  Blob.dx (Blob.update b)
  = if Rltb (Blob.x b + Blob.dx b - Blob.r b) 0
       || Rgtb (Blob.x b + Blob.dx b + Blob.r b) (IZR CANVAS_WIDTH)
    then - Blob.dx b else Blob.dx b.
Proof.
  unfold Blob.update. rewrite reset_dx.
  unfold Blob.before_reset, Blob.bounce, Blob.move, Blob.apply_buoyancy,
    Blob.clamp_temperature, Blob.heat_or_cool, Blob.apply_gravity.
  destruct (Rgtb (Blob.y _) _); blob_simpl; destruct (_ || _); reflexivity.
Qed.

(** X1: [update] moves [x] by [dx] and never corrects it; it reverses [dx]
    exactly when the moved disc sticks out of the column on the left or on
    the right, so the horizontal speed never changes. *)
Theorem update_horizontal (b : Blob.t) :
  Blob.x (Blob.update b) = Blob.x b + Blob.dx b /\
  Rabs (Blob.dx (Blob.update b)) = Rabs (Blob.dx b) /\
  (Blob.x (Blob.update b) - Blob.r b < 0 \/
   Blob.x (Blob.update b) + Blob.r b > IZR CANVAS_WIDTH ->
   Blob.dx (Blob.update b) = - Blob.dx b) /\
  (0 <= Blob.x (Blob.update b) - Blob.r b /\
   Blob.x (Blob.update b) + Blob.r b <= IZR CANVAS_WIDTH ->
   Blob.dx (Blob.update b) = Blob.dx b).
Proof.
  rewrite update_x, update_dx.
  destruct (Rltb _ 0) eqn:El; [apply Rltb_true in El | apply Rltb_false in El];
    (destruct (Rgtb _ (IZR CANVAS_WIDTH)) eqn:Er;
      [apply Rgtb_true in Er | apply Rgtb_false in Er]);
    cbn [orb]; repeat split; intros;
    try apply Rabs_Ropp; try reflexivity; lra.
Qed.

Lemma update_horizontal_witness :
  Blob.dx (Blob.update (Blob.mk 1 35 6 (- (1 / 4)) 0 0)) = 1 / 4 /\
  Blob.dx (Blob.update falling_blob) = 1 / 4.
Proof.
  split.
  - destruct (update_horizontal (Blob.mk 1 35 6 (- (1 / 4)) 0 0))
      as (Hx & _ & Hout & _).
    rewrite Hout; blob_simpl; [lra |]. left. rewrite Hx. blob_simpl. lra.
  - destruct (update_horizontal falling_blob) as (Hx & _ & _ & Hin).
    rewrite Hin; unfold falling_blob in *; blob_simpl; [lra |].
    rewrite Hx. blob_simpl. change (IZR CANVAS_WIDTH) with 20. lra.
Defined.

(** ** update: vertical motion and temperature *)

Lemma before_reset_temperature_eq b :
  Blob.temperature (Blob.before_reset b)
  = Rmax 0 (Rmin 1 (Blob.temperature b
                    + (if Rgtb (Blob.y b) (IZR CANVAS_HEIGHT - HEAT_ZONE)
                       then HEATING_RATE else - COOLING_RATE))).
Proof.
  unfold Blob.before_reset. rewrite bounce_temperature.
  unfold Blob.move, Blob.apply_buoyancy, Blob.clamp_temperature,
    Blob.heat_or_cool, Blob.apply_gravity.
  blob_simpl. destruct (Rgtb _ _); blob_simpl; reflexivity.
Qed.

Lemma before_reset_dy b :
  Blob.dy (Blob.before_reset b)
  = Blob.dy b + GRAVITY
    - (if Rgtb (Blob.y b) (IZR CANVAS_HEIGHT - HEAT_ZONE) then 5 / 100 else 0)
    - BUOYANCY * Blob.temperature (Blob.before_reset b) * 2.
Proof.
  rewrite before_reset_temperature_eq.
  unfold Blob.before_reset. rewrite bounce_dy.
  unfold Blob.move, Blob.apply_buoyancy, Blob.clamp_temperature,
    Blob.heat_or_cool, Blob.apply_gravity.
  blob_simpl. destruct (Rgtb _ _); blob_simpl; unfold Rminus; ring.
Qed.

Lemma before_reset_y b :
  Blob.y (Blob.before_reset b) = Blob.y b + Blob.dy (Blob.before_reset b).
Proof.
  unfold Blob.before_reset. rewrite bounce_y, bounce_dy.
  unfold Blob.move, Blob.apply_buoyancy, Blob.clamp_temperature,
    Blob.heat_or_cool, Blob.apply_gravity.
  blob_simpl. destruct (Rgtb _ _); blob_simpl; reflexivity.
Qed.

Lemma update_temperature b :
  Blob.temperature (Blob.update b) = Blob.temperature (Blob.before_reset b).
Proof. unfold Blob.update. apply reset_temperature. Qed.

(** The three ways [update] can end. *)
Lemma reset_cases b :
  (Blob.y b - Blob.r b > IZR CANVAS_HEIGHT /\
   Blob.y (Blob.reset b) = IZR CANVAS_HEIGHT - Blob.r b /\
   Blob.dy (Blob.reset b) = 0) \/
  (Blob.y b - Blob.r b <= IZR CANVAS_HEIGHT /\ Blob.y b + Blob.r b < 0 /\
   Blob.y (Blob.reset b) = Blob.r b /\ Blob.dy (Blob.reset b) = 0) \/
  (Blob.y b - Blob.r b <= IZR CANVAS_HEIGHT /\ 0 <= Blob.y b + Blob.r b /\
   Blob.reset b = b).
Proof.
  unfold Blob.reset. repeat cmp_case; blob_simpl; tauto.
Qed.

Lemma update_cases b :
  (Blob.y (Blob.before_reset b) - Blob.r b > IZR CANVAS_HEIGHT /\
   Blob.y (Blob.update b) = IZR CANVAS_HEIGHT - Blob.r b /\
   Blob.dy (Blob.update b) = 0) \/
  (Blob.y (Blob.before_reset b) - Blob.r b <= IZR CANVAS_HEIGHT /\
   Blob.y (Blob.before_reset b) + Blob.r b < 0 /\
   Blob.y (Blob.update b) = Blob.r b /\ Blob.dy (Blob.update b) = 0) \/
  (Blob.y (Blob.before_reset b) - Blob.r b <= IZR CANVAS_HEIGHT /\
   0 <= Blob.y (Blob.before_reset b) + Blob.r b /\
   Blob.update b = Blob.before_reset b).
Proof.
  unfold Blob.update.
  assert (H := reset_cases (Blob.before_reset b)).
  rewrite before_reset_r in H. exact H.
Qed.

Lemma update_y_range (b : Blob.t) :
  0 <= Blob.r b ->
  - Blob.r b <= Blob.y (Blob.update b) <= IZR CANVAS_HEIGHT + Blob.r b.
Proof.
  intros Hr. change (IZR CANVAS_HEIGHT) with 70 in *.
  destruct (update_cases b) as [(_ & Hy & _) | [(_ & _ & Hy & _) | (H1 & H2 & Hu)]];
    change (IZR CANVAS_HEIGHT) with 70 in *.
  - rewrite Hy. lra.
  - rewrite Hy. lra.
  - rewrite Hu. lra.
Qed.

(** X2: After [update] a blob of radius [r >= 0] has its centre no further than
    [r] above the column's top or below its bottom: the disc always touches
    the column's vertical range, though the centre may lie outside it. *)
Theorem update_keeps_disc_on_column (b : Blob.t) :
  0 <= Blob.r b ->
  - Blob.r b <= Blob.y (Blob.update b) <= IZR CANVAS_HEIGHT + Blob.r b.
Proof.
  intros Hr. unfold Blob.update, Blob.reset.
  rewrite before_reset_r. change (IZR CANVAS_HEIGHT) with 70.
  destruct (Rgtb _ 70) eqn:Elow;
    [apply Rgtb_true in Elow | apply Rgtb_false in Elow].
  - cbn [Blob.y Blob.set_y Blob.set_dy]. lra.
  - destruct (Rltb _ 0) eqn:Ehigh;
      [apply Rltb_true in Ehigh | apply Rltb_false in Ehigh].
    + cbn [Blob.y Blob.set_y Blob.set_dy]. lra.
    + lra.
Qed.

Lemma update_keeps_disc_on_column_witness :
  - Blob.r falling_blob <= Blob.y (Blob.update falling_blob)
    <= IZR CANVAS_HEIGHT + Blob.r falling_blob.
Proof.
  apply (update_keeps_disc_on_column falling_blob).
  unfold falling_blob; cbn [Blob.r]. lra.
Defined.

(** X3: When the moved blob lies entirely above the column (and has [r >= 0]),
    [update] puts it back with its upper edge on the column's top, [y = r],
    and stops it. *)
Theorem top_reset_is_flush (b : Blob.t) :
  0 <= Blob.r b ->
  Blob.y (Blob.before_reset b) + Blob.r (Blob.before_reset b) < 0 ->
  Blob.y (Blob.update b) - Blob.r (Blob.update b) = 0 /\
  Blob.dy (Blob.update b) = 0.
Proof.
  intros Hr Hhigh. rewrite update_r. rewrite before_reset_r in Hhigh.
  destruct (update_cases b) as [(H1 & _) | [(_ & _ & Hy & Hdy) | (_ & H2 & _)]];
    change (IZR CANVAS_HEIGHT) with 70 in *.
  - lra.
  - rewrite Hy, Hdy. split; lra.
  - lra.
Qed.

Lemma risen_blob_before_reset_y :
  Blob.y (Blob.before_reset risen_blob) = - 20 - 98 / 100.
Proof. unfold risen_blob. eval_update. Qed.

Lemma top_reset_is_flush_witness :
  Blob.y (Blob.update risen_blob) - Blob.r (Blob.update risen_blob) = 0 /\
  Blob.dy (Blob.update risen_blob) = 0.
Proof.
  apply (top_reset_is_flush risen_blob).
  - unfold risen_blob; cbn [Blob.r]. lra.
  - rewrite before_reset_r, risen_blob_before_reset_y.
    unfold risen_blob; cbn [Blob.r]. lra.
Defined.

Lemma Rmax_0_Rmin_1_up (t d : R) :
  0 <= t -> 0 <= d -> Rmax 0 (Rmin 1 (t + d)) = Rmin 1 (t + d).
Proof.
  intros Ht Hd. unfold Rmax, Rmin.
  destruct (Rle_dec 1 (t + d)); destruct (Rle_dec 0 _); lra.
Qed.

Lemma Rmax_0_Rmin_1_down (t d : R) :
  t <= 1 -> 0 <= d -> Rmax 0 (Rmin 1 (t + - d)) = Rmax 0 (t - d).
Proof.
  intros Ht Hd. unfold Rmax, Rmin.
  destruct (Rle_dec 1 (t + - d)); destruct (Rle_dec 0 _);
    destruct (Rle_dec 0 (t - d)); lra.
Qed.

(** X4: In the heat zone ([y > CANVAS_HEIGHT - HEAT_ZONE]) a blob whose
    temperature is in [0, 1] warms by [HEATING_RATE], up to 1; and when no
    reset fires its velocity changes by gravity, the upward push of 0.05 and
    the buoyancy of the new temperature, which makes it at least 0.03 less
    than before, and [y] moves by the new velocity. *)
Theorem update_in_heat_zone (b : Blob.t) :
  Blob.y b > IZR CANVAS_HEIGHT - HEAT_ZONE ->
  0 <= Blob.temperature b <= 1 ->
  Blob.temperature (Blob.update b)
    = Rmin 1 (Blob.temperature b + HEATING_RATE) /\
  (Blob.y (Blob.before_reset b) - Blob.r b <= IZR CANVAS_HEIGHT ->
   0 <= Blob.y (Blob.before_reset b) + Blob.r b ->
   Blob.dy (Blob.update b)
     = Blob.dy b + GRAVITY - 5 / 100
       - BUOYANCY * Blob.temperature (Blob.update b) * 2 /\
   Blob.dy (Blob.update b) <= Blob.dy b - 3 / 100 /\
   Blob.y (Blob.update b) = Blob.y b + Blob.dy (Blob.update b)).
Proof.
  intros Hzone Ht.
  assert (Hdy := before_reset_dy b). assert (Hy := before_reset_y b).
  assert (Htemp := before_reset_temperature_eq b).
  apply Rgtb_true in Hzone. rewrite Hzone in Hdy, Htemp.
  rewrite Rmax_0_Rmin_1_up in Htemp by (unfold HEATING_RATE; lra).
  rewrite update_temperature. split; [exact Htemp |].
  intros Hlow Hhigh.
  destruct (update_cases b) as [(H1 & _) | [(_ & H2 & _) | (_ & _ & Hu)]];
    [lra | lra |].
  rewrite Hu. repeat split; [exact Hdy | | exact Hy].
  rewrite Hdy, Htemp. unfold GRAVITY, BUOYANCY, HEATING_RATE, Rmin.
  destruct (Rle_dec 1 _); lra.
Qed.

Lemma heated_blob_before_reset_y :
  Blob.y (Blob.before_reset heated_blob) = 65 - 82 / 1000.
Proof. unfold heated_blob. eval_update. Qed.

Lemma update_in_heat_zone_witness :
  Blob.temperature (Blob.update heated_blob)
    = Rmin 1 (Blob.temperature heated_blob + HEATING_RATE) /\
  Blob.dy (Blob.update heated_blob) <= Blob.dy heated_blob - 3 / 100.
Proof.
  assert (Hzone : Blob.y heated_blob > IZR CANVAS_HEIGHT - HEAT_ZONE).
  { unfold heated_blob, HEAT_ZONE, CANVAS_HEIGHT; cbn [Blob.y]. lra. }
  assert (Ht : 0 <= Blob.temperature heated_blob <= 1).
  { unfold heated_blob; cbn [Blob.temperature]. lra. }
  destruct (update_in_heat_zone heated_blob Hzone Ht) as (Htemp & Hrest).
  split; [exact Htemp |].
  apply Hrest; rewrite heated_blob_before_reset_y;
    unfold heated_blob, CANVAS_HEIGHT; cbn [Blob.r]; lra.
Defined.

(** X5: Outside the heat zone a blob whose temperature is in [0, 1] cools by
    [COOLING_RATE], down to 0; when no reset fires its velocity changes by
    gravity less the buoyancy of the new temperature and [y] moves by the
    new velocity; a blob no warmer than [COOLING_RATE] is in free fall. *)
Theorem update_outside_heat_zone (b : Blob.t) :
  Blob.y b <= IZR CANVAS_HEIGHT - HEAT_ZONE ->
  0 <= Blob.temperature b <= 1 ->
  Blob.temperature (Blob.update b)
    = Rmax 0 (Blob.temperature b - COOLING_RATE) /\
  (Blob.y (Blob.before_reset b) - Blob.r b <= IZR CANVAS_HEIGHT ->
   0 <= Blob.y (Blob.before_reset b) + Blob.r b ->
   Blob.dy (Blob.update b)
     = Blob.dy b + GRAVITY - BUOYANCY * Blob.temperature (Blob.update b) * 2 /\
   Blob.y (Blob.update b) = Blob.y b + Blob.dy (Blob.update b) /\
   (Blob.temperature b <= COOLING_RATE ->
    Blob.dy (Blob.update b) = Blob.dy b + GRAVITY)).
Proof.
  intros Hzone Ht.
  assert (Hdy := before_reset_dy b). assert (Hy := before_reset_y b).
  assert (Htemp := before_reset_temperature_eq b).
  apply Rgtb_false in Hzone. rewrite Hzone in Hdy, Htemp.
  rewrite Rmax_0_Rmin_1_down in Htemp by (unfold COOLING_RATE; lra).
  rewrite update_temperature. split; [exact Htemp |].
  intros Hlow Hhigh.
  destruct (update_cases b) as [(H1 & _) | [(_ & H2 & _) | (_ & _ & Hu)]];
    [lra | lra |].
  rewrite Hu. repeat split; [rewrite Hdy; ring | exact Hy |].
  intros Hcold. rewrite Hdy, Htemp. unfold Rmax, BUOYANCY.
  destruct (Rle_dec 0 _); lra.
Qed.

Lemma falling_blob_before_reset_y :
  Blob.y (Blob.before_reset falling_blob) = 35 + 12 / 100.
Proof. unfold falling_blob. eval_update. Qed.

Lemma update_outside_heat_zone_witness :
  Blob.temperature (Blob.update falling_blob)
    = Rmax 0 (Blob.temperature falling_blob - COOLING_RATE) /\
  Blob.dy (Blob.update falling_blob) = Blob.dy falling_blob + GRAVITY.
Proof.
  assert (Hzone : Blob.y falling_blob <= IZR CANVAS_HEIGHT - HEAT_ZONE).
  { unfold falling_blob, HEAT_ZONE, CANVAS_HEIGHT; cbn [Blob.y]. lra. }
  assert (Ht : 0 <= Blob.temperature falling_blob <= 1).
  { unfold falling_blob; cbn [Blob.temperature]. lra. }
  destruct (update_outside_heat_zone falling_blob Hzone Ht) as (Htemp & Hrest).
  split; [exact Htemp |].
  apply Hrest; try rewrite falling_blob_before_reset_y;
    unfold falling_blob, CANVAS_HEIGHT, COOLING_RATE;
    cbn [Blob.r Blob.temperature]; lra.
Defined.

(** ** split: what it conserves *)

Lemma split_cases (b : Blob.t) (s : nat -> R) (n : nat) :
  (Blob.r b <= 12 /\ Blob.split b s n = (b, None, n)) \/
  (Blob.r b > 12 /\
   exists child : Blob.t,
     Blob.split b s n
     = (Blob.set_r (sqrt (Blob.area b / 2 / PI)) b, Some child, (4 + n)%nat) /\
     Blob.r child = sqrt (Blob.area b / 2 / PI) /\
     Blob.temperature child = 0).
Proof.
  destruct (Rle_lt_dec (Blob.r b) 12) as [Hle | Hlt].
  - left. split; [exact Hle | apply split_run_small; exact Hle].
  - right. split; [exact Hlt |].
    unfold Blob.split.
    assert (H : Blob.r b > IZR MAX_RADIUS * (8 / 10))
      by (rewrite split_threshold; exact Hlt).
    apply Rgtb_true in H. rewrite H.
    eexists. split; [reflexivity |]. cbn. split; reflexivity.
Qed.

Lemma halved_radius (r0 : R) :
  0 <= r0 -> sqrt (PI * r0 ^ 2 / 2 / PI) = r0 / sqrt 2.
Proof.
  intros Hr. assert (HPI := PI_RGT_0).
  replace (PI * r0 ^ 2 / 2 / PI) with (r0 ^ 2 / 2) by (field; lra).
  rewrite sqrt_div_alt by lra. rewrite sqrt_pow2 by exact Hr. reflexivity.
Qed.

Lemma sqrt_2_gt_5_4 : 5 / 4 < sqrt 2.
Proof.
  rewrite <- (sqrt_square (5 / 4)) by lra. apply sqrt_lt_1_alt. lra.
Qed.

(** X6: [split] conserves area: the area the blob is left with and the area of
    the child, if there is one, add up to the area the blob had; nothing but
    the radius of the blob changes, and a child starts cold with the radius
    the parent is left with. *)
Theorem split_conserves_area (b : Blob.t) (s : nat -> R) (n : nat) :
  Blob.area (fst (fst (Blob.split b s n)))
  + match snd (fst (Blob.split b s n)) with
    | Some child => Blob.area child
    | None => 0
    end
  = Blob.area b /\
  Blob.set_r (Blob.r b) (fst (fst (Blob.split b s n))) = b /\
  (forall child : Blob.t,
     snd (fst (Blob.split b s n)) = Some child ->
     Blob.r child = Blob.r (fst (fst (Blob.split b s n))) /\
     Blob.temperature child = 0).
Proof.
  destruct (split_cases b s n) as [(_ & ->) | (_ & child & -> & Hr & Ht)];
    cbn [fst snd].
  - repeat split; [lra | destruct b; reflexivity | discriminate | discriminate].
  - repeat split.
    + assert (Hp : Blob.area (Blob.set_r (sqrt (Blob.area b / 2 / PI)) b)
                   = Blob.area b / 2).
      { unfold Blob.area at 1 3. cbn [Blob.r Blob.set_r].
        apply halved_radius_area. }
      assert (Hc : Blob.area child = Blob.area b / 2).
      { unfold Blob.area at 1. rewrite Hr. unfold Blob.area.
        apply halved_radius_area. }
      rewrite Hp, Hc. lra.
    + destruct b; reflexivity.
    + injection H as <-. rewrite Hr. reflexivity.
    + injection H as <-. exact Ht.
Qed.

(** X7: A blob above the threshold but no larger than [MAX_RADIUS] is split
    once and for all: both halves have radius [r / sqrt 2], which is below
    the threshold, so [split] leaves each of them alone. *)
Theorem split_once_is_enough (b : Blob.t) (s : nat -> R) (n : nat) :
  IZR MAX_RADIUS * (8 / 10) < Blob.r b <= IZR MAX_RADIUS ->
  exists child : Blob.t,
    snd (fst (Blob.split b s n)) = Some child /\
    Blob.r (fst (fst (Blob.split b s n))) = Blob.r b / sqrt 2 /\
    Blob.r child = Blob.r b / sqrt 2 /\
    (forall (s' : nat -> R) (m : nat),
       Blob.split (fst (fst (Blob.split b s n))) s' m
       = (fst (fst (Blob.split b s n)), None, m) /\
       Blob.split child s' m = (child, None, m)).
Proof.
  rewrite split_threshold. change (IZR MAX_RADIUS) with 15. intros [Hlo Hhi].
  destruct (split_cases b s n) as [(Hle & _) | (_ & child & -> & Hr & _)];
    [lra |].
  cbn [fst snd]. exists child.
  assert (Hhalf : sqrt (Blob.area b / 2 / PI) = Blob.r b / sqrt 2).
  { unfold Blob.area. apply halved_radius. lra. }
  assert (Hsmall : Blob.r b / sqrt 2 <= 12).
  { assert (H2 := sqrt_2_gt_5_4).
    apply Rmult_le_reg_r with (sqrt 2); [lra |].
    unfold Rdiv. rewrite Rmult_assoc, Rinv_l by lra. lra. }
  rewrite Hr, Hhalf. cbn [Blob.r Blob.set_r].
  repeat split; intros; apply split_run_small;
    [cbn [Blob.r Blob.set_r] | rewrite Hr, Hhalf]; exact Hsmall.
Qed.

Lemma split_once_is_enough_witness :
  exists child : Blob.t,
    snd (fst (Blob.split big_blob zero_draws 0%nat)) = Some child /\
    Blob.r (fst (fst (Blob.split big_blob zero_draws 0%nat)))
      = Blob.r big_blob / sqrt 2 /\
    Blob.r child = Blob.r big_blob / sqrt 2 /\
    (forall (s' : nat -> R) (m : nat),
       Blob.split (fst (fst (Blob.split big_blob zero_draws 0%nat))) s' m
       = (fst (fst (Blob.split big_blob zero_draws 0%nat)), None, m) /\
       Blob.split child s' m = (child, None, m)).
Proof.
  apply (split_once_is_enough big_blob zero_draws 0%nat).
  unfold big_blob, MAX_RADIUS; cbn [Blob.r]. lra.
Defined.

(** ** The split loop and the physics step *)

Lemma split_pass_cons (b : Blob.t) (rest : list Blob.t)
    (s : nat -> R) (n : nat) :
  split_pass (b :: rest) s n
  = (fst (fst (Blob.split b s n))
       :: fst (fst (split_pass rest s (snd (Blob.split b s n)))),
     match snd (fst (Blob.split b s n)) with
     | Some child =>
         child :: snd (fst (split_pass rest s (snd (Blob.split b s n))))
     | None => snd (fst (split_pass rest s (snd (Blob.split b s n))))
     end,
     snd (split_pass rest s (snd (Blob.split b s n)))).
Proof.
  cbn [split_pass]. unfold bind, ret.
  destruct (Blob.split b s n) as [[p c] n1]. cbn [fst snd].
  destruct (split_pass rest s n1) as [[l1 l2] n2]. reflexivity.
Qed.

Lemma step_run (blobs : list Blob.t) (s : nat -> R) (n : nat) :
  step blobs s n
  = (fst (fst (split_pass (update_blobs blobs) s n))
       ++ snd (fst (split_pass (update_blobs blobs) s n)),
     snd (split_pass (update_blobs blobs) s n)).
Proof.
  unfold step, bind, ret.
  destruct (split_pass (update_blobs blobs) s n) as [[l1 l2] n1]. reflexivity.
Qed.

Lemma steps_S (m : nat) (blobs : list Blob.t) (s : nat -> R) (n : nat) :
  steps (S m) blobs s n
  = steps m (fst (step blobs s n)) s (snd (step blobs s n)).
Proof.
  cbn [steps]. unfold bind. destruct (step blobs s n). reflexivity.
Qed.

Lemma total_area_cons (b : Blob.t) (l : list Blob.t) :
  total_area (b :: l) = Blob.area b + total_area l.
Proof. reflexivity. Qed.

Lemma split_area (b : Blob.t) (s : nat -> R) (n : nat) :
  Blob.area (fst (fst (Blob.split b s n)))
  + match snd (fst (Blob.split b s n)) with
    | Some child => Blob.area child
    | None => 0
    end
  = Blob.area b.
Proof.
  destruct (split_cases b s n) as [(_ & ->) | (_ & child & -> & Hr & _)];
    cbn [fst snd]; [lra |].
  assert (Hp : Blob.area (Blob.set_r (sqrt (Blob.area b / 2 / PI)) b)
               = Blob.area b / 2).
  { unfold Blob.area at 1 3. cbn [Blob.r Blob.set_r].
    apply halved_radius_area. }
  assert (Hc : Blob.area child = Blob.area b / 2).
  { unfold Blob.area at 1. rewrite Hr. unfold Blob.area.
    apply halved_radius_area. }
  rewrite Hp, Hc. lra.
Qed.

Lemma split_pass_area (blobs : list Blob.t) :
  forall (s : nat -> R) (n : nat),
    total_area (fst (fst (split_pass blobs s n)))
    + total_area (snd (fst (split_pass blobs s n)))
    = total_area blobs.
Proof.
  induction blobs as [| b rest IH]; intros s n.
  - cbn. unfold total_area; cbn. lra.
  - rewrite split_pass_cons. cbn [fst snd].
    assert (Hb := split_area b s n).
    specialize (IH s (snd (Blob.split b s n))).
    rewrite !total_area_cons.
    destruct (snd (fst (Blob.split b s n))) as [child |];
      rewrite ?total_area_cons; lra.
Qed.

Lemma split_pass_length (blobs : list Blob.t) :
  forall (s : nat -> R) (n : nat),
    length (fst (fst (split_pass blobs s n))) = length blobs /\
    (length (snd (fst (split_pass blobs s n))) <= length blobs)%nat.
Proof.
  induction blobs as [| b rest IH]; intros s n.
  - cbn. split; [reflexivity | lia].
  - rewrite split_pass_cons. cbn [fst snd length].
    destruct (IH s (snd (Blob.split b s n))) as [H1 H2].
    destruct (snd (fst (Blob.split b s n))); cbn [length]; lia.
Qed.

Lemma split_pass_small (blobs : list Blob.t) (s : nat -> R) (n : nat) :
  Forall (fun b => Blob.r b <= 12) blobs ->
  split_pass blobs s n = (blobs, [], n).
Proof.
  induction 1 as [| b rest Hb Hrest IH].
  - reflexivity.
  - rewrite split_pass_cons, (split_run_small b s n Hb). cbn [fst snd].
    rewrite IH. reflexivity.
Qed.

Lemma update_blobs_area (blobs : list Blob.t) :
  total_area (update_blobs blobs) = total_area blobs.
Proof.
  induction blobs as [| b rest IH]; [reflexivity |].
  unfold update_blobs in *. cbn [map]. rewrite !total_area_cons, IH.
  unfold Blob.area. rewrite update_r. reflexivity.
Qed.

Lemma step_area (blobs : list Blob.t) (s : nat -> R) (n : nat) :
  total_area (fst (step blobs s n)) = total_area blobs.
Proof.
  rewrite step_run. cbn [fst].
  rewrite total_area_app, split_pass_area. apply update_blobs_area.
Qed.

(** X8: The lava is conserved: whatever the blobs and the draws, the total area
    of the blobs after any number of iterations is the total area before. *)
Theorem steps_conserve_area (m : nat) :
  forall (blobs : list Blob.t) (s : nat -> R) (n : nat),
    total_area (fst (steps m blobs s n)) = total_area blobs.
Proof.
  induction m as [| m IH]; intros blobs s n.
  - reflexivity.
  - rewrite steps_S, IH. apply step_area.
Qed.

Lemma step_length (blobs : list Blob.t) (s : nat -> R) (n : nat) :
  (length blobs <= length (fst (step blobs s n)) <= 2 * length blobs)%nat.
Proof.
  rewrite step_run. cbn [fst]. rewrite length_app.
  destruct (split_pass_length (update_blobs blobs) s n) as [H1 H2].
  unfold update_blobs in *. rewrite length_map in *. lia.
Qed.

(** X9: No blob is ever removed, and an iteration can at most double their
    number (each blob yields at most one child). *)
Theorem steps_population (m : nat) :
  forall (blobs : list Blob.t) (s : nat -> R) (n : nat),
    (length blobs <= length (fst (steps m blobs s n))
     <= 2 ^ m * length blobs)%nat.
Proof.
  induction m as [| m IH]; intros blobs s n.
  - cbn. lia.
  - rewrite steps_S.
    specialize (IH (fst (step blobs s n)) s (snd (step blobs s n))).
    assert (H := step_length blobs s n).
    change (2 ^ S m)%nat with (2 * 2 ^ m)%nat. nia.
Qed.

Lemma update_blobs_small (blobs : list Blob.t) :
  Forall (fun b => Blob.r b <= 12) blobs ->
  Forall (fun b => Blob.r b <= 12) (update_blobs blobs).
Proof.
  intros H. unfold update_blobs. apply Forall_map.
  apply Forall_impl with (2 := H). intros b Hb. rewrite update_r. exact Hb.
Qed.

Lemma step_small (blobs : list Blob.t) (s : nat -> R) (n : nat) :
  Forall (fun b => Blob.r b <= 12) blobs ->
  step blobs s n = (update_blobs blobs, n).
Proof.
  intros H. rewrite step_run, split_pass_small by (apply update_blobs_small, H).
  cbn [fst snd]. rewrite app_nil_r. reflexivity.
Qed.

Lemma iter_update_blobs_small (m : nat) (blobs : list Blob.t) :
  Forall (fun b => Blob.r b <= 12) blobs ->
  Forall (fun b => Blob.r b <= 12) (Nat.iter m update_blobs blobs).
Proof.
  intros H. induction m as [| m IH]; [exact H |].
  rewrite Nat.iter_succ. apply update_blobs_small, IH.
Qed.

Lemma steps_small (m : nat) :
  forall (blobs : list Blob.t) (s : nat -> R) (n : nat),
    Forall (fun b => Blob.r b <= 12) blobs ->
    steps m blobs s n = (Nat.iter m update_blobs blobs, n).
Proof.
  induction m as [| m IH]; intros blobs s n H.
  - reflexivity.
  - rewrite steps_S, step_small by exact H. cbn [fst snd].
    rewrite IH by (apply update_blobs_small, H).
    rewrite <- Nat.iter_succ_r. reflexivity.
Qed.

(** X10: While no radius exceeds the split threshold nothing splits: any number
    of iterations only updates the blobs, one by one and in place, draws no
    random number and keeps every radius and the number of blobs. *)
Theorem steps_without_split (m : nat) (blobs : list Blob.t)
    (s : nat -> R) (n : nat) :
  Forall (fun b => Blob.r b <= IZR MAX_RADIUS * (8 / 10)) blobs ->
  steps m blobs s n = (Nat.iter m update_blobs blobs, n) /\
  length (fst (steps m blobs s n)) = length blobs /\
  map Blob.r (fst (steps m blobs s n)) = map Blob.r blobs.
Proof.
  rewrite split_threshold. intros H.
  rewrite steps_small by exact H. cbn [fst]. split; [reflexivity |].
  clear H. induction m as [| m IH]; [split; reflexivity |].
  rewrite Nat.iter_succ. destruct IH as [IH1 IH2].
  set (l := Nat.iter m update_blobs blobs) in *.
  unfold update_blobs. rewrite length_map, map_map.
  split; [exact IH1 |].
  rewrite <- IH2. apply map_ext. intros b. apply update_r.
Qed.

Lemma steps_without_split_witness :
  steps 3 [small_blob; falling_blob] zero_draws 0%nat
  = (Nat.iter 3 update_blobs [small_blob; falling_blob], 0%nat) /\
  length (fst (steps 3 [small_blob; falling_blob] zero_draws 0%nat))
  = length [small_blob; falling_blob] /\
  map Blob.r (fst (steps 3 [small_blob; falling_blob] zero_draws 0%nat))
  = map Blob.r [small_blob; falling_blob].
Proof.
  apply (steps_without_split 3 [small_blob; falling_blob] zero_draws 0%nat).
  repeat constructor; unfold small_blob, falling_blob, MAX_RADIUS;
    cbn [Blob.r]; lra.
Defined.

(** ** The horizontal invariant *)

Lemma fresh_in_play (b : Blob.t) : fresh b -> in_play b.
Proof. unfold fresh, in_play. intros (Hr & Hx & _ & Hdx & _). tauto. Qed.

Lemma in_play_update (b : Blob.t) : in_play b -> in_play (Blob.update b).
Proof.
  unfold in_play. rewrite update_r, update_x, update_dx.
  change (IZR CANVAS_WIDTH) with 20. change (IZR (MIN_RADIUS + 2)) with 7.
  intros (Hr & Hdx & Hx).
  destruct (Rltb _ 0) eqn:El; [apply Rltb_true in El | apply Rltb_false in El];
    (destruct (Rgtb _ 20) eqn:Er;
      [apply Rgtb_true in Er | apply Rgtb_false in Er]);
    cbn [orb]; (split; [lra |]); (split; [lra |]);
    destruct Hx as [Hx | Hx]; lra.
Qed.

Lemma in_play_x_range (b : Blob.t) :
  in_play b ->
  Blob.r b - 1 / 2 <= Blob.x b <= IZR CANVAS_WIDTH - Blob.r b + 1 / 2.
Proof.
  unfold in_play. intros (_ & Hdx & [Hx | Hx]); lra.
Qed.

(** X11: A blob that is in play (radius in (0, 7], drift at most 0.5, disc inside
    the column walls now or after its next move) is still in play after
    [update]: its disc never reaches more than half a cell beyond a wall,
    although [update] never corrects [x]. *)
Theorem update_keeps_in_play (b : Blob.t) :
  in_play b ->
  in_play (Blob.update b) /\
  Blob.r b - 1 / 2 <= Blob.x (Blob.update b)
    <= IZR CANVAS_WIDTH - Blob.r b + 1 / 2.
Proof.
  intros H. apply in_play_update in H. split; [exact H |].
  apply in_play_x_range in H. rewrite update_r in H. exact H.
Qed.

Lemma update_keeps_in_play_witness :
  in_play (Blob.update falling_blob) /\
  Blob.r falling_blob - 1 / 2 <= Blob.x (Blob.update falling_blob)
    <= IZR CANVAS_WIDTH - Blob.r falling_blob + 1 / 2.
Proof.
  apply (update_keeps_in_play falling_blob).
  unfold in_play, falling_blob; cbn [Blob.r Blob.x Blob.dx].
  change (IZR (MIN_RADIUS + 2)) with 7. change (IZR CANVAS_WIDTH) with 20.
  repeat split; lra.
Defined.

(** ** The states a run goes through *)

Lemma init_loop_count (s : nat -> R) (fuel : nat) :
  forall (blobs : list Blob.t) (rem : R) (n : nat)
         (l : list Blob.t) (k : nat),
    init_loop fuel blobs rem s n = (Some l, k) ->
    exists new : list Blob.t,
      l = blobs ++ new /\ (length new <= fuel)%nat /\
      k = (n + 5 * length new)%nat.
Proof.
  induction fuel as [| fuel IH]; intros blobs rem n l k Hrun.
  - destruct (Rle_lt_dec rem 0) as [Hle | Hlt].
    + rewrite init_loop_done in Hrun by exact Hle.
      injection Hrun as <- <-. exists []. rewrite app_nil_r. cbn. auto with arith.
    + rewrite init_loop_out_of_fuel in Hrun by exact Hlt. discriminate.
  - destruct (Rle_lt_dec rem 0) as [Hle | Hlt].
    + rewrite init_loop_done in Hrun by exact Hle.
      injection Hrun as <- <-. exists []. rewrite app_nil_r. cbn.
      repeat split; lia.
    + rewrite init_loop_unfold in Hrun by exact Hlt. cbv zeta in Hrun.
      apply IH in Hrun. destruct Hrun as (new & -> & Hlen & ->).
      match goal with
      | |- context [(blobs ++ [?b]) ++ new] => exists (b :: new)
      end.
      rewrite <- app_assoc. cbn [app length]. repeat split; lia.
Qed.

Lemma fresh_area_le (b : Blob.t) : fresh b -> Blob.area b <= 196.
Proof.
  unfold fresh, Blob.area. change (IZR (MIN_RADIUS + 2)) with 7.
  intros (Hr & _). assert (H4 := PI_4). assert (H0 := PI_RGT_0).
  assert (Hsq : Blob.r b ^ 2 <= 49) by nra. nra.
Qed.

Lemma fresh_total_area_le (l : list Blob.t) :
  Forall fresh l -> total_area l <= 196 * INR (length l).
Proof.
  induction 1 as [| b l Hb Hl IH].
  - unfold total_area; cbn. lra.
  - rewrite total_area_cons. cbn [length]. rewrite S_INR.
    apply fresh_area_le in Hb. lra.
Qed.

(** What any successful initialisation gives. *)
Lemma init_blobs_sound (s : nat -> R) (fuel : nat)
    (blobs0 : list Blob.t) (k : nat) :
  unit_draws s ->
  init_blobs fuel s 0%nat = (Some blobs0, k) ->
  Forall fresh blobs0 /\ total_area blobs0 = TOTAL_AREA /\
  (13 <= length blobs0 <= fuel)%nat /\ k = (5 * length blobs0)%nat.
Proof.
  intros Hs Hrun. unfold init_blobs in Hrun.
  assert (Hpos : 0 <= TOTAL_AREA) by (rewrite TOTAL_AREA_value; lra).
  destruct (init_loop_sound s Hs fuel [] TOTAL_AREA 0 blobs0 k Hpos Hrun)
    as (new & -> & Hall & Htot).
  destruct (init_loop_count s fuel [] TOTAL_AREA 0 _ k Hrun)
    as (new' & Heq & Hlen & Hk).
  cbn [app] in *. subst new'.
  repeat split; try assumption.
  assert (Hle := fresh_total_area_le new Hall).
  rewrite Htot, TOTAL_AREA_value in Hle.
  destruct (Nat.le_gt_cases 13 (length new)) as [H13 | H13]; [exact H13 |].
  assert (H12 : INR (length new) <= 12).
  { replace 12 with (INR 12) by (rewrite (INR_IZR_INZ 12); reflexivity).
    apply le_INR. lia. }
  lra.
Qed.

Lemma init_blobs_exist (s : nat -> R) :
  unit_draws s ->
  exists (blobs0 : list Blob.t) (k : nat),
    forall fuel : nat, (34 <= fuel)%nat ->
      init_blobs fuel s 0%nat = (Some blobs0, k).
Proof.
  intros Hs.
  destruct (init_loop_terminates s Hs 34 [] TOTAL_AREA 0 init_fuel_enough)
    as (l & k & Hrun).
  exists l, k. intros fuel Hle.
  apply (init_loop_more_fuel s Hs 34); assumption.
Qed.

Lemma reachable_exists (s : nat -> R) :
  unit_draws s -> exists blobs : list Blob.t, reachable s blobs.
Proof.
  intros Hs. destruct (init_blobs_exist s Hs) as (blobs0 & k & Hinit).
  exists blobs0, 34%nat, blobs0, k, 0%nat.
  split; [apply Hinit; lia | reflexivity].
Qed.

Lemma fresh_small (l : list Blob.t) :
  Forall fresh l -> Forall (fun b => Blob.r b <= 12) l.
Proof.
  intros H. apply Forall_impl with (2 := H).
  unfold fresh. change (IZR (MIN_RADIUS + 2)) with 7. intros b (Hr & _). lra.
Qed.

(** Every reachable list is the initial list updated some number of times. *)
Lemma reachable_inv (s : nat -> R) (blobs : list Blob.t) :
  unit_draws s -> reachable s blobs ->
  exists (blobs0 : list Blob.t) (m : nat),
    Forall fresh blobs0 /\ total_area blobs0 = TOTAL_AREA /\
    (13 <= length blobs0 <= 34)%nat /\
    blobs = Nat.iter m update_blobs blobs0.
Proof.
  intros Hs (fuel & blobs0 & k & m & Hinit & Hsteps).
  assert (Hinit' : init_blobs (Nat.max fuel 34) s 0%nat = (Some blobs0, k)).
  { apply (init_loop_more_fuel s Hs fuel); [lia | exact Hinit]. }
  destruct (init_blobs_exist s Hs) as (l & k' & Hl).
  assert (H34 := Hl 34%nat (Nat.le_refl _)).
  rewrite (Hl (Nat.max fuel 34)) in Hinit' by lia.
  injection Hinit' as -> ->.
  destruct (init_blobs_sound s 34 blobs0 k Hs H34)
    as (Hfresh & Harea & Hlen & _).
  exists blobs0, m. repeat split; try assumption; try lia.
  rewrite steps_small in Hsteps by (apply fresh_small, Hfresh).
  symmetry. exact Hsteps.
Qed.

Lemma Forall_iter_update (P : Blob.t -> Prop) (m : nat) (l : list Blob.t) :
  (forall b : Blob.t, P b -> P (Blob.update b)) ->
  Forall P l -> Forall P (Nat.iter m update_blobs l).
Proof.
  intros Hstep Hl. induction m as [| m IH]; [exact Hl |].
  rewrite Nat.iter_succ. unfold update_blobs at 1. apply Forall_map.
  apply Forall_impl with (2 := IH). exact Hstep.
Qed.

Lemma iter_update_length (m : nat) (l : list Blob.t) :
  length (Nat.iter m update_blobs l) = length l.
Proof.
  induction m as [| m IH]; [reflexivity |].
  rewrite Nat.iter_succ. unfold update_blobs at 1.
  rewrite length_map. exact IH.
Qed.

Lemma iter_update_area (m : nat) (l : list Blob.t) :
  total_area (Nat.iter m update_blobs l) = total_area l.
Proof.
  induction m as [| m IH]; [reflexivity |].
  rewrite Nat.iter_succ, update_blobs_area. exact IH.
Qed.

Lemma fresh_near_column (b : Blob.t) : fresh b -> near_column b.
Proof.
  unfold fresh, near_column.
  change (IZR CANVAS_WIDTH) with 20. change (IZR CANVAS_HEIGHT) with 70.
  intros (Hr & Hx & Hy & _ & _ & Ht). rewrite Ht. repeat split; lra.
Qed.

Lemma running_update (b : Blob.t) :
  in_play b /\ near_column b ->
  in_play (Blob.update b) /\ near_column (Blob.update b).
Proof.
  intros [Hp _]. assert (Hp' := in_play_update b Hp).
  split; [exact Hp' |]. unfold near_column.
  assert (Hr : 0 <= Blob.r b) by (destruct Hp as ((Hr & _) & _); lra).
  split; [apply in_play_x_range, Hp' |].
  split.
  - rewrite update_r. apply update_y_range, Hr.
  - rewrite update_temperature. apply before_reset_temperature.
Qed.

(** X12: In every state a run reaches, from draws in [0, 1): every radius is in
    (0, MIN_RADIUS + 2], there are at least 13 blobs, no blob can be split,
    and the next iteration only updates the blobs in place, without drawing
    a random number. *)
Theorem reachable_never_splits (s : nat -> R) (blobs : list Blob.t) :
  unit_draws s -> reachable s blobs ->
  Forall (fun b => 0 < Blob.r b <= IZR (MIN_RADIUS + 2)) blobs /\
  (13 <= length blobs)%nat /\
  (forall (b : Blob.t) (s' : nat -> R) (n : nat),
     In b blobs -> Blob.split b s' n = (b, None, n)) /\
  (forall n : nat, step blobs s n = (update_blobs blobs, n)).
Proof.
  intros Hs Hreach.
  destruct (reachable_inv s blobs Hs Hreach)
    as (blobs0 & m & Hfresh & _ & Hlen & ->).
  assert (Hr : Forall (fun b => 0 < Blob.r b <= IZR (MIN_RADIUS + 2))
                 (Nat.iter m update_blobs blobs0)).
  { apply Forall_iter_update.
    - intros b Hb. rewrite update_r. exact Hb.
    - apply Forall_impl with (2 := Hfresh). intros b Hb. apply Hb. }
  assert (Hsmall : Forall (fun b => Blob.r b <= 12)
                     (Nat.iter m update_blobs blobs0)).
  { apply Forall_impl with (2 := Hr).
    change (IZR (MIN_RADIUS + 2)) with 7. intros b Hb. lra. }
  repeat split.
  - exact Hr.
  - rewrite iter_update_length. lia.
  - intros b s' n Hin. apply split_run_small.
    rewrite Forall_forall in Hsmall. apply Hsmall, Hin.
  - intros n. apply step_small, Hsmall.
Qed.

Lemma reachable_never_splits_witness :
  exists blobs : list Blob.t,
    reachable zero_draws blobs /\
    Forall (fun b => 0 < Blob.r b <= IZR (MIN_RADIUS + 2)) blobs /\
    (13 <= length blobs)%nat.
Proof.
  destruct (reachable_exists zero_draws zero_draws_unit) as (blobs & Hreach).
  exists blobs. split; [exact Hreach |].
  destruct (reachable_never_splits zero_draws blobs zero_draws_unit Hreach)
    as (Hr & Hlen & _).
  split; assumption.
Defined.

(** X13: In every state a run reaches, the blobs' areas add up to [TOTAL_AREA],
    5% of the column's area in screen pixels: initialisation uses up the
    budget exactly and no iteration changes it. *)
Theorem reachable_area_is_budget (s : nat -> R) (blobs : list Blob.t) :
  unit_draws s -> reachable s blobs -> total_area blobs = TOTAL_AREA.
Proof.
  intros Hs Hreach.
  destruct (reachable_inv s blobs Hs Hreach)
    as (blobs0 & m & _ & Harea & _ & ->).
  rewrite iter_update_area. exact Harea.
Qed.

Lemma reachable_area_is_budget_witness :
  exists blobs : list Blob.t,
    reachable zero_draws blobs /\ total_area blobs = TOTAL_AREA.
Proof.
  destruct (reachable_exists zero_draws zero_draws_unit) as (blobs & Hreach).
  exists blobs. split; [exact Hreach |].
  exact (reachable_area_is_budget zero_draws blobs zero_draws_unit Hreach).
Defined.

(** X14: In every state a run reaches, every blob is near the column: its disc
    reaches at most half a cell beyond the left or right wall, its centre is
    at most one radius above the top or below the bottom, and its
    temperature is between 0 and 1. *)
Theorem reachable_near_column (s : nat -> R) (blobs : list Blob.t) :
  unit_draws s -> reachable s blobs -> Forall near_column blobs.
Proof.
  intros Hs Hreach.
  destruct (reachable_inv s blobs Hs Hreach)
    as (blobs0 & m & Hfresh & _ & _ & ->).
  assert (H : Forall (fun b => in_play b /\ near_column b)
                (Nat.iter m update_blobs blobs0)).
  { apply Forall_iter_update; [exact running_update |].
    apply Forall_impl with (2 := Hfresh). intros b Hb.
    split; [apply fresh_in_play | apply fresh_near_column]; exact Hb. }
  apply Forall_impl with (2 := H). intros b Hb. apply Hb.
Qed.

Lemma reachable_near_column_witness :
  exists blobs : list Blob.t,
    reachable zero_draws blobs /\ Forall near_column blobs.
Proof.
  destruct (reachable_exists zero_draws zero_draws_unit) as (blobs & Hreach).
  exists blobs. split; [exact Hreach |].
  exact (reachable_near_column zero_draws blobs zero_draws_unit Hreach).
Defined.

(** ** The field: bounds *)

Lemma contribution_bounds (px py : R) (b : Blob.t) :
  0 <= Blob.r b -> 0 <= contribution px py b <= Blob.r b.
Proof.
  intros Hr. unfold contribution.
  destruct (Req_dec_T (distance px py b) 0) as [Hz | Hnz]; [lra |].
  assert (Hd := pow2_ge_0 (distance px py b)).
  assert (Hinv : 0 < / (distance px py b ^ 2 + 1) <= 1).
  { split; [apply Rinv_0_lt_compat; lra |].
    apply Rmult_le_reg_l with (distance px py b ^ 2 + 1); [lra |].
    rewrite Rinv_r by lra. lra. }
  unfold Rdiv. split; [apply Rmult_le_pos; lra | nra].
Qed.

Lemma field_sum_bounds (px py : R) (blobs : list Blob.t) :
  Forall (fun b => 0 <= Blob.r b) blobs ->
  0 <= field_sum px py blobs <= total_radius blobs.
Proof.
  induction 1 as [| b l Hb Hl IH].
  - unfold field_sum, total_radius; cbn. lra.
  - change (field_sum px py (b :: l))
      with (contribution px py b + field_sum px py l).
    change (total_radius (b :: l)) with (Blob.r b + total_radius l).
    assert (Hc := contribution_bounds px py b Hb). lra.
Qed.

Lemma metaball_field_sum (px py : R) (blobs : list Blob.t) :
  metaball_field px py blobs = field_sum px py blobs.
Proof. unfold metaball_field. rewrite fold_field_add. ring. Qed.

(** X15: With radii that are not negative the field is nowhere negative and
    nowhere more than the sum of the radii: a blob adds at most its radius,
    which it only approaches next to its centre. *)
Theorem metaball_field_bounds (px py : R) (blobs : list Blob.t) :
  Forall (fun b => 0 <= Blob.r b) blobs ->
  0 <= metaball_field px py blobs <= total_radius blobs.
Proof.
  intros H. rewrite metaball_field_sum. revert H.
  induction 1 as [| b l Hb Hl IH].
  - unfold field_sum, total_radius; cbn. lra.
  - change (field_sum px py (b :: l))
      with (contribution px py b + field_sum px py l).
    change (total_radius (b :: l)) with (Blob.r b + total_radius l).
    assert (Hc := contribution_bounds px py b Hb). lra.
Qed.

Lemma metaball_field_bounds_witness :
  0 <= metaball_field 3 4 [small_blob; falling_blob]
    <= total_radius [small_blob; falling_blob].
Proof.
  apply (metaball_field_bounds 3 4 [small_blob; falling_blob]).
  repeat constructor; unfold small_blob, falling_blob; cbn [Blob.r]; lra.
Defined.

Lemma field_sum_app (px py : R) (l1 l2 : list Blob.t) :
  field_sum px py (l1 ++ l2) = field_sum px py l1 + field_sum px py l2.
Proof.
  induction l1 as [| b l1 IH]; unfold field_sum in *; cbn [app fold_right].
  - lra.
  - rewrite IH. lra.
Qed.

(** X16: Each blob adds to the field on its own: the field of two lists put
    together is the sum of their fields, whatever the order, and a child
    appended by the split loop adds its own term and changes no other. *)
Theorem metaball_field_app (px py : R) (l1 l2 : list Blob.t) :
  metaball_field px py (l1 ++ l2)
  = metaball_field px py l1 + metaball_field px py l2 /\
  metaball_field px py (l2 ++ l1) = metaball_field px py (l1 ++ l2).
Proof.
  rewrite !metaball_field_sum, !field_sum_app. split; lra.
Qed.

(** ** The raster loops *)

Lemma In_range (n z : Z) : In z (range n) <-> (0 <= z < n)%Z.
Proof.
  unfold range. rewrite in_map_iff. split.
  - intros (k & <- & Hk). apply in_seq in Hk. lia.
  - intros Hz. exists (Z.to_nat z). split; [lia |]. apply in_seq. lia.
Qed.

Lemma py_int_nonneg (v : R) :
  0 <= v -> IZR (py_int v) <= v < IZR (py_int v) + 1.
Proof.
  intros Hv. unfold py_int.
  apply Rltb_false in Hv. rewrite Hv.
  destruct (base_Int_part v) as [H1 H2]. lra.
Qed.

(** The red channel the raster loop computes for a field value above the
    threshold. *)
Lemma intensity_cases (v : R) :
  v > 25 / 10 ->
  (125 <= Z.min (py_int (v * 50)) 255 <= 255)%Z /\
  (v < 51 / 10 ->
   IZR (Z.min (py_int (v * 50)) 255) <= v * 50
     < IZR (Z.min (py_int (v * 50)) 255) + 1) /\
  (51 / 10 <= v -> Z.min (py_int (v * 50)) 255 = 255%Z).
Proof.
  intros Hv.
  assert (Hp : 0 <= v * 50) by lra.
  destruct (py_int_nonneg (v * 50) Hp) as [H1 H2].
  assert (H125 : (125 <= py_int (v * 50))%Z).
  { apply Z.lt_succ_r, lt_IZR. rewrite succ_IZR. change (IZR 125) with 125. lra. }
  repeat split.
  - lia.
  - lia.
  - assert (H254 : (py_int (v * 50) < 255)%Z).
    { apply lt_IZR. change (IZR 255) with 255. lra. }
    rewrite Z.min_l by lia. exact H1.
  - assert (H254 : (py_int (v * 50) < 255)%Z).
    { apply lt_IZR. change (IZR 255) with 255. lra. }
    rewrite Z.min_l by lia. exact H2.
  - intros Hsat. apply Z.min_r.
    apply Z.lt_succ_r, lt_IZR. rewrite succ_IZR. change (IZR 255) with 255.
    lra.
Qed.

(** X17: What the body of the raster loops does for one cell: nothing when the
    field there is at most 2.5; otherwise it chooses the pen
    [(i, 105, 180)] and fills the cell's block, where [i] is [50 * field]
    rounded down, between 125 and 254, for a field below 5.1, and 255 from
    there on. *)
Theorem render_cell_paints (blobs : list Blob.t) (cy cx : Z) :
  (metaball_field (IZR cx) (IZR cy) blobs <= 25 / 10 ->
   render_cell blobs cy cx = []) /\
  (metaball_field (IZR cx) (IZR cy) blobs > 25 / 10 ->
   exists i : Z,
     render_cell blobs cy cx
     = [ set_pen (create_pen i 105 180);
         rectangle (COLUMN_X + cx * SCALE) (COLUMN_Y + cy * SCALE)
                   SCALE SCALE ] /\
     (125 <= i <= 255)%Z /\
     (metaball_field (IZR cx) (IZR cy) blobs < 51 / 10 ->
      IZR i <= metaball_field (IZR cx) (IZR cy) blobs * 50 < IZR i + 1) /\
     (51 / 10 <= metaball_field (IZR cx) (IZR cy) blobs -> i = 255%Z)).
Proof.
  unfold render_cell. split; intros Hv.
  - apply Rgtb_false in Hv. rewrite Hv. reflexivity.
  - destruct (intensity_cases _ Hv) as (H1 & H2 & H3).
    apply Rgtb_true in Hv. rewrite Hv.
    eexists. split; [reflexivity |]. repeat split; tauto.
Qed.

Lemma In_render_metaballs (blobs : list Blob.t) (c : call) :
  In c (render_metaballs blobs) <->
  exists cy cx : Z,
    (0 <= cy < CANVAS_HEIGHT)%Z /\ (0 <= cx < CANVAS_WIDTH)%Z /\
    In c (render_cell blobs cy cx).
Proof.
  unfold render_metaballs. rewrite in_flat_map. split.
  - intros (cy & Hcy & Hin). apply in_flat_map in Hin.
    destruct Hin as (cx & Hcx & Hin).
    exists cy, cx. rewrite In_range in Hcy, Hcx. tauto.
  - intros (cy & cx & Hcy & Hcx & Hin).
    exists cy. split; [apply In_range, Hcy |].
    apply in_flat_map. exists cx. split; [apply In_range, Hcx | exact Hin].
Qed.

Lemma In_render_cell_rectangle (blobs : list Blob.t) (cy cx px py w h : Z) :
  In (rectangle px py w h) (render_cell blobs cy cx) <->
  metaball_field (IZR cx) (IZR cy) blobs > 25 / 10 /\
  px = (COLUMN_X + cx * SCALE)%Z /\ py = (COLUMN_Y + cy * SCALE)%Z /\
  w = SCALE /\ h = SCALE.
Proof.
  unfold render_cell.
  destruct (Rgtb _ (25 / 10)) eqn:E;
    [apply Rgtb_true in E | apply Rgtb_false in E]; cbn [In].
  - split.
    + intros [H | [H | []]]; [discriminate |].
      injection H as <- <- <- <-. tauto.
    + intros (_ & -> & -> & -> & ->). right. left. reflexivity.
  - split; [tauto | intros (H & _); lra].
Qed.

(** X18: For every cell of the grid, the raster loops fill the cell's block, at
    [(COLUMN_X + x * SCALE, COLUMN_Y + y * SCALE)], if and only if the field
    at the cell exceeds 2.5. *)
Theorem render_metaballs_block_iff (blobs : list Blob.t) (cx cy : Z) :
  (0 <= cx < CANVAS_WIDTH)%Z -> (0 <= cy < CANVAS_HEIGHT)%Z ->
  In (rectangle (COLUMN_X + cx * SCALE) (COLUMN_Y + cy * SCALE) SCALE SCALE)
     (render_metaballs blobs)
  <-> metaball_field (IZR cx) (IZR cy) blobs > 25 / 10.
Proof.
  intros Hcx Hcy. rewrite In_render_metaballs. split.
  - intros (cy' & cx' & Hcy' & Hcx' & Hin).
    apply In_render_cell_rectangle in Hin.
    destruct Hin as (Hv & Hx & Hy & _).
    unfold SCALE in Hx, Hy.
    assert (cx' = cx) by lia. assert (cy' = cy) by lia. subst. exact Hv.
  - intros Hv. exists cy, cx. repeat split; try lia.
    apply In_render_cell_rectangle. tauto.
Qed.

Lemma edge_blob_field : metaball_field (IZR 0) (IZR 0) [edge_blob] = 4008 / 1000.
Proof.
  unfold metaball_field, field_add, edge_blob. cbn [fold_left Blob.x Blob.y Blob.r].
  assert (H : (0 - 1 / 2) * (0 - 1 / 2) + (0 - 0) * (0 - 0) > 0) by lra.
  apply Rgtb_true in H. rewrite H. lra.
Qed.

Lemma render_metaballs_block_iff_witness :
  In (rectangle (COLUMN_X + 0 * SCALE) (COLUMN_Y + 0 * SCALE) SCALE SCALE)
     (render_metaballs [edge_blob])
  /\ ~ In (rectangle (COLUMN_X + 0 * SCALE) (COLUMN_Y + 0 * SCALE) SCALE SCALE)
          (render_metaballs []).
Proof.
  assert (Hx : (0 <= 0 < CANVAS_WIDTH)%Z) by (unfold CANVAS_WIDTH; lia).
  assert (Hy : (0 <= 0 < CANVAS_HEIGHT)%Z) by (unfold CANVAS_HEIGHT; lia).
  split.
  - apply (render_metaballs_block_iff [edge_blob] 0 0 Hx Hy).
    rewrite edge_blob_field. lra.
  - intros Hin. apply (render_metaballs_block_iff [] 0 0 Hx Hy) in Hin.
    rewrite metaball_field_nil in Hin. lra.
Defined.

Lemma render_cell_lava (blobs : list Blob.t) (cy cx : Z) :
  (0 <= cy < CANVAS_HEIGHT)%Z -> (0 <= cx < CANVAS_WIDTH)%Z ->
  Forall lava_call (render_cell blobs cy cx).
Proof.
  intros Hcy Hcx. unfold render_cell.
  destruct (Rgtb _ (25 / 10)) eqn:E;
    [apply Rgtb_true in E | constructor].
  destruct (intensity_cases _ E) as (Hi & _).
  repeat constructor; cbn [lava_call create_pen]; try tauto;
    unfold COLUMN_X, COLUMN_Y, SCREEN_WIDTH, SCREEN_HEIGHT, CANVAS_WIDTH,
      CANVAS_HEIGHT, SCALE in *; lia.
Qed.

(** X19: Whatever the blobs, the raster loops only choose pens [(i, 105, 180)]
    with [125 <= i <= 255] and only fill blocks of one cell that lie inside
    the column; they make at most two calls per cell. *)
Theorem render_metaballs_stays_in_column (blobs : list Blob.t) :
  Forall lava_call (render_metaballs blobs) /\
  (length (render_metaballs blobs)
   <= 2 * Z.to_nat (CANVAS_WIDTH * CANVAS_HEIGHT))%nat.
Proof.
  split.
  - apply Forall_forall. intros c Hin.
    apply In_render_metaballs in Hin.
    destruct Hin as (cy & cx & Hcy & Hcx & Hin).
    assert (H := render_cell_lava blobs cy cx Hcy Hcx).
    rewrite Forall_forall in H. apply H, Hin.
  - unfold render_metaballs.
    assert (Hcell : forall cy cx, (length (render_cell blobs cy cx) <= 2)%nat).
    { intros cy cx. unfold render_cell. destruct (Rgtb _ _); cbn; lia. }
    assert (Hrow : forall (cy : Z) (l : list Z),
      (length (flat_map (render_cell blobs cy) l) <= 2 * length l)%nat).
    { intros cy l. induction l as [| cx l IH]; [cbn; lia |].
      cbn [flat_map]. rewrite length_app. specialize (Hcell cy cx).
      cbn [length]. lia. }
    assert (Hall : forall l : list Z,
      (length (flat_map
                 (fun cy => flat_map (render_cell blobs cy)
                              (range CANVAS_WIDTH)) l)
       <= 2 * length (range CANVAS_WIDTH) * length l)%nat).
    { intros l. induction l as [| cy l IH]; [cbn; lia |].
      cbn [flat_map]. rewrite length_app.
      specialize (Hrow cy (range CANVAS_WIDTH)). cbn [length]. nia. }
    specialize (Hall (range CANVAS_HEIGHT)).
    assert (Hlen : forall n : Z, length (range n) = Z.to_nat n).
    { intros n. unfold range. rewrite length_map, length_seq. reflexivity. }
    rewrite !Hlen in Hall.
    change (Z.to_nat CANVAS_WIDTH) with 20%nat in Hall.
    change (Z.to_nat CANVAS_HEIGHT) with 70%nat in Hall.
    change (Z.to_nat (CANVAS_WIDTH * CANVAS_HEIGHT)) with 1400%nat.
    lia.
Qed.

Lemma flat_map_nil {A B : Type} (f : A -> list B) (l : list A) :
  (forall a : A, In a l -> f a = []) -> flat_map f l = [].
Proof.
  induction l as [| a l IH]; intros H; [reflexivity |].
  cbn [flat_map]. rewrite (H a) by (left; reflexivity).
  apply IH. intros a' Ha'. apply H. right. exact Ha'.
Qed.

(** X20: Blobs whose radii (none negative) add up to at most 2.5 are never
    drawn: the raster loops make no call at all.  In particular nothing is
    drawn for an empty list. *)
Theorem render_nothing_when_faint (blobs : list Blob.t) :
  Forall (fun b => 0 <= Blob.r b) blobs ->
  total_radius blobs <= 25 / 10 ->
  render_metaballs blobs = [].
Proof.
  intros Hr Hsum. unfold render_metaballs.
  apply flat_map_nil. intros cy _. apply flat_map_nil. intros cx _.
  unfold render_cell.
  assert (Hv : metaball_field (IZR cx) (IZR cy) blobs <= 25 / 10).
  { rewrite metaball_field_sum.
    assert (H := field_sum_bounds (IZR cx) (IZR cy) blobs Hr). lra. }
  apply Rgtb_false in Hv. rewrite Hv. reflexivity.
Qed.

Lemma render_nothing_when_faint_witness :
  render_metaballs [Blob.mk 10 35 2 0 0 0] = [] /\ render_metaballs [] = [].
Proof.
  split.
  - apply (render_nothing_when_faint [Blob.mk 10 35 2 0 0 0]).
    + repeat constructor. cbn [Blob.r]. lra.
    + unfold total_radius. cbn [fold_right Blob.r]. lra.
  - apply (render_nothing_when_faint []).
    + constructor.
    + unfold total_radius. cbn [fold_right]. lra.
Defined.

(** ** draw_chrome *)

Lemma chrome_band_slice (top i : Z) :
  (0 <= i < 13)%Z ->
  In (rectangle (chrome_x + i * chrome_slice_width) top
                chrome_slice_width CHROME_HEIGHT)
     (chrome_band top).
Proof.
  intros Hi. unfold chrome_band. apply in_flat_map.
  assert (Hc : exists c : pen, In (i, c) (enumerate chrome_colors)).
  { assert (H : (i = 0 \/ i = 1 \/ i = 2 \/ i = 3 \/ i = 4 \/ i = 5 \/ i = 6 \/
                 i = 7 \/ i = 8 \/ i = 9 \/ i = 10 \/ i = 11 \/ i = 12)%Z)
      by lia.
    repeat (destruct H as [-> | H]; [eexists; vm_compute; tauto |]).
    subst i. eexists; vm_compute; tauto. }
  destruct Hc as (c & Hc). exists (i, c). split; [exact Hc |].
  unfold chrome_slice. cbn [fst snd In]. right. left. reflexivity.
Qed.

(** X21: Every call of [draw_chrome] chooses a gradient pen or fills a slice 9
    pixels wide and [CHROME_HEIGHT] high that lies within the column's width
    and touches the column's top or bottom edge without overlapping it; the
    slices cover the pixel columns from [COLUMN_X] on but stop 3 short of
    the column's right edge (13 slices of [120 // 13 = 9]); and every slice
    sticks out of the screen, above row 0 or below row [SCREEN_HEIGHT]. *)
Theorem draw_chrome_geometry :
  Forall chrome_call draw_chrome /\
  (forall px : Z,
     (exists x0 py w h : Z,
        In (rectangle x0 py w h) draw_chrome /\ (x0 <= px < x0 + w)%Z)
     <-> (COLUMN_X <= px < COLUMN_X + CANVAS_WIDTH * SCALE - 3)%Z) /\
  (forall px py w h : Z,
     In (rectangle px py w h) draw_chrome ->
     (py < 0 \/ SCREEN_HEIGHT < py + h)%Z).
Proof.
  split; [| split].
  - apply Forall_forall. intros c Hin. vm_compute in Hin.
    repeat (destruct Hin as [Hin | Hin];
            [subst c; vm_compute; intuition congruence |]).
    destruct Hin.
  - intros px. split.
    + intros (x0 & py & w & h & Hin & Hpx). vm_compute in Hin.
      change (180 <= px < 297)%Z.
      repeat (destruct Hin as [Hin | Hin];
              [try discriminate; injection Hin as <- <- <- <-; lia |]).
      destruct Hin.
    + intros Hpx. change (180 <= px < 297)%Z in Hpx.
      exists (chrome_x + (px - 180) / 9 * chrome_slice_width)%Z,
        (COLUMN_Y - CHROME_HEIGHT)%Z, chrome_slice_width, CHROME_HEIGHT.
      split.
      * unfold draw_chrome. apply in_or_app. left.
        apply chrome_band_slice.
        split; [apply Z.div_pos; lia | apply Z.div_lt_upper_bound; lia].
      * change chrome_x with 180%Z. change chrome_slice_width with 9%Z.
        assert (H := Z.div_mod (px - 180) 9 ltac:(lia)).
        assert (H' := Z.mod_pos_bound (px - 180) 9 ltac:(lia)). lia.
  - intros px py w h Hin. vm_compute in Hin.
    change SCREEN_HEIGHT with 480%Z.
    repeat (destruct Hin as [Hin | Hin];
            [try discriminate; injection Hin as <- <- <- <-; lia |]).
    destruct Hin.
Qed.

(** ** A frame and a run of frames *)

Lemma frame_run (blobs : list Blob.t) (s : nat -> R) (n : nat) :
  frame blobs s n
  = ([set_pen background; clear] ++ draw_chrome ++ render_metaballs blobs
       ++ [presto_update; sleep],
     fst (step blobs s n), snd (step blobs s n)).
Proof.
  unfold frame, bind, ret. destruct (step blobs s n). reflexivity.
Qed.

Lemma run_S (m : nat) (blobs : list Blob.t) (s : nat -> R) (n : nat) :
  run (S m) blobs s n
  = (fst (fst (frame blobs s n))
       ++ fst (fst (run m (snd (fst (frame blobs s n))) s
                          (snd (frame blobs s n)))),
     snd (fst (run m (snd (fst (frame blobs s n))) s (snd (frame blobs s n)))),
     snd (run m (snd (fst (frame blobs s n))) s (snd (frame blobs s n)))).
Proof.
  cbn [run]. unfold bind, ret.
  destruct (frame blobs s n) as [[tr bl] n1]. cbn [fst snd].
  destruct (run m bl s n1) as [[tr' bl'] n2]. reflexivity.
Qed.

Lemma count_app (p : call -> bool) (l1 l2 : list call) :
  count p (l1 ++ l2) = (count p l1 + count p l2)%nat.
Proof. unfold count. rewrite filter_app, length_app. reflexivity. Qed.

Lemma count_drawing (l : list call) :
  Forall is_drawing l ->
  count is_clear l = 0%nat /\ count is_presto_update l = 0%nat.
Proof.
  unfold count. induction 1 as [| c l Hc Hl IH]; [split; reflexivity |].
  destruct c; cbn in Hc; try contradiction; cbn [filter is_clear
    is_presto_update]; exact IH.
Qed.

Lemma draw_chrome_drawing : Forall is_drawing draw_chrome.
Proof.
  apply Forall_forall. intros c Hin. vm_compute in Hin.
  repeat (destruct Hin as [Hin | Hin]; [subst c; exact I |]).
  destruct Hin.
Qed.

Lemma render_metaballs_drawing (blobs : list Blob.t) :
  Forall is_drawing (render_metaballs blobs).
Proof.
  apply Forall_forall. intros c Hin.
  apply In_render_metaballs in Hin.
  destruct Hin as (cy & cx & _ & _ & Hin).
  unfold render_cell in Hin. destruct (Rgtb _ _); cbn [In] in Hin.
  - destruct Hin as [<- | [<- | []]]; exact I.
  - destruct Hin.
Qed.

(** X22: One iteration of the main loop selects the background pen and clears
    the screen, then only paints (the chrome, then the blobs as they are
    before this iteration's update), then presents and sleeps; what it
    shows does not depend on the random draws, and the blob list it leaves
    is the one the physics step gives. *)
Theorem frame_trace (blobs : list Blob.t) (s : nat -> R) (n : nat) :
  exists painting : list call,
    fst (fst (frame blobs s n))
    = [set_pen background; clear] ++ painting ++ [presto_update; sleep] /\
    painting = draw_chrome ++ render_metaballs blobs /\
    Forall is_drawing painting /\
    (forall (s' : nat -> R) (n' : nat),
       fst (fst (frame blobs s' n')) = fst (fst (frame blobs s n))) /\
    snd (fst (frame blobs s n)) = fst (step blobs s n).
Proof.
  exists (draw_chrome ++ render_metaballs blobs).
  rewrite frame_run. cbn [fst snd].
  split; [rewrite <- !app_assoc; reflexivity |].
  split; [reflexivity |]. split; [| split; [| reflexivity]].
  - apply Forall_app. split;
      [apply draw_chrome_drawing | apply render_metaballs_drawing].
  - intros s' n'. rewrite frame_run. reflexivity.
Qed.

Lemma frame_counts (blobs : list Blob.t) (s : nat -> R) (n : nat) :
  count is_clear (fst (fst (frame blobs s n))) = 1%nat /\
  count is_presto_update (fst (fst (frame blobs s n))) = 1%nat.
Proof.
  rewrite frame_run. cbn [fst]. rewrite !count_app.
  destruct (count_drawing _ draw_chrome_drawing) as [-> ->].
  destruct (count_drawing _ (render_metaballs_drawing blobs)) as [-> ->].
  split; reflexivity.
Qed.

(** X23: [m] iterations of the main loop clear the screen exactly [m] times and
    present it exactly [m] times, and leave the blob list and the position
    in the random stream that [m] physics steps give: drawing never touches
    the blobs or the random source. *)
Theorem run_trace (m : nat) :
  forall (blobs : list Blob.t) (s : nat -> R) (n : nat),
    count is_clear (fst (fst (run m blobs s n))) = m /\
    count is_presto_update (fst (fst (run m blobs s n))) = m /\
    snd (fst (run m blobs s n)) = fst (steps m blobs s n) /\
    snd (run m blobs s n) = snd (steps m blobs s n).
Proof.
  induction m as [| m IH]; intros blobs s n.
  - cbn. repeat split; reflexivity.
  - rewrite run_S, steps_S. cbn [fst snd]. rewrite !count_app.
    destruct (frame_counts blobs s n) as [-> ->].
    assert (Hb : snd (fst (frame blobs s n)) = fst (step blobs s n))
      by (rewrite frame_run; reflexivity).
    assert (Hn : snd (frame blobs s n) = snd (step blobs s n))
      by (rewrite frame_run; reflexivity).
    rewrite Hb, Hn.
    destruct (IH (fst (step blobs s n)) s (snd (step blobs s n)))
      as (-> & -> & -> & ->).
    repeat split; reflexivity.
Qed.

(** ** The constructor and the initial list *)

(** X24: For draws in [0, 1) the constructor keeps the position and the radius
    it is given, draws [dx] in [-0.5, 0.5] and then [dy] in [-0.1, 0.1]
    (two draws, in this order), and starts the blob cold. *)
Theorem blob_init_spec (x0 y0 r0 : R) (s : nat -> R) (n : nat) :
  unit_draws s ->
  exists b : Blob.t,
    Blob.init x0 y0 r0 s n = (b, S (S n)) /\
    Blob.x b = x0 /\ Blob.y b = y0 /\ Blob.r b = r0 /\
    Blob.dx b = - (5 / 10) + s n /\ - (5 / 10) <= Blob.dx b <= 5 / 10 /\
    Blob.dy b = - (1 / 10) + (2 / 10) * s (S n) /\
    - (1 / 10) <= Blob.dy b <= 1 / 10 /\
    Blob.temperature b = 0.
Proof.
  intros Hs. rewrite init_run. eexists. split; [reflexivity |].
  cbn [Blob.x Blob.y Blob.r Blob.dx Blob.dy Blob.temperature].
  assert (H1 := Hs n). assert (H2 := Hs (S n)).
  repeat split; lra.
Qed.

Lemma blob_init_spec_witness :
  exists b : Blob.t,
    Blob.init 10 35 6 zero_draws 0%nat = (b, 2%nat) /\
    Blob.dx b = - (5 / 10) /\ Blob.dy b = - (1 / 10).
Proof.
  destruct (blob_init_spec 10 35 6 zero_draws 0%nat)
    as (b & Hrun & _ & _ & _ & Hdx & _ & Hdy & _).
  - intros k. unfold zero_draws. lra.
  - exists b. split; [exact Hrun |].
    unfold zero_draws in Hdx, Hdy. split; lra.
Defined.

(** X25: Whatever list the initialisation loop returns (draws in [0, 1)): every
    blob's disc lies inside the column, its drift is at most 0.5 across
    and 0.1 down or up, it is cold; the areas add up to [TOTAL_AREA]; five
    draws were made per blob; and there are at least 13 blobs. *)
Theorem init_blobs_fresh (s : nat -> R) (fuel : nat)
    (blobs : list Blob.t) (k : nat) :
  unit_draws s ->
  init_blobs fuel s 0%nat = (Some blobs, k) ->
  Forall fresh blobs /\ total_area blobs = TOTAL_AREA /\
  (13 <= length blobs <= fuel)%nat /\ k = (5 * length blobs)%nat.
Proof.
  intros Hs Hrun. unfold init_blobs in Hrun.
  assert (Hpos : 0 <= TOTAL_AREA) by (rewrite TOTAL_AREA_value; lra).
  destruct (init_loop_sound s Hs fuel [] TOTAL_AREA 0 blobs k Hpos Hrun)
    as (new & -> & Hall & Htot).
  destruct (init_loop_count s fuel [] TOTAL_AREA 0 _ k Hrun)
    as (new' & Heq & Hlen & Hk).
  cbn [app] in *. subst new'.
  split; [exact Hall |]. split; [exact Htot |]. split; [| exact Hk].
  split; [| exact Hlen].
  assert (Hle := fresh_total_area_le new Hall).
  rewrite Htot, TOTAL_AREA_value in Hle.
  destruct (Nat.le_gt_cases 13 (length new)) as [H13 | H13]; [exact H13 |].
  assert (H12 : INR (length new) <= 12).
  { replace 12 with (INR 12) by (rewrite (INR_IZR_INZ 12); reflexivity).
    apply le_INR. lia. }
  lra.
Qed.

Lemma init_blobs_fresh_witness :
  exists (blobs : list Blob.t) (k : nat),
    init_blobs 34 zero_draws 0%nat = (Some blobs, k) /\
    Forall fresh blobs /\ total_area blobs = TOTAL_AREA /\
    (13 <= length blobs <= 34)%nat /\ k = (5 * length blobs)%nat.
Proof.
  destruct (init_blobs_exist zero_draws zero_draws_unit) as (blobs & k & H).
  exists blobs, k.
  assert (Hrun := H 34%nat (Nat.le_refl 34)).
  split; [exact Hrun |].
  exact (init_blobs_fresh zero_draws 34 blobs k zero_draws_unit Hrun).
Defined.

(** ** Radii and the number of blobs over a run *)

Lemma split_radius_le (b : Blob.t) (s : nat -> R) (n : nat) :
  Blob.r (fst (fst (Blob.split b s n))) <= Blob.r b /\
  (forall child : Blob.t,
     snd (fst (Blob.split b s n)) = Some child ->
     Blob.r (fst (fst (Blob.split b s n))) < Blob.r b /\
     Blob.r child < Blob.r b).
Proof.
  destruct (split_cases b s n) as [(_ & ->) | (Hbig & child & -> & Hr & _)];
    cbn [fst snd Blob.r Blob.set_r].
  - split; [lra | discriminate].
  - assert (Hhalf : sqrt (Blob.area b / 2 / PI) = Blob.r b / sqrt 2).
    { unfold Blob.area. apply halved_radius. lra. }
    assert (Hlt : Blob.r b / sqrt 2 < Blob.r b).
    { assert (H2 := sqrt_2_gt_5_4).
      apply Rmult_lt_reg_r with (sqrt 2); [lra |].
      unfold Rdiv. rewrite Rmult_assoc, Rinv_l by lra. nra. }
    rewrite Hhalf. split; [lra |].
    intros c Hc. injection Hc as <-. rewrite Hr, Hhalf. lra.
Qed.

Lemma steps_snoc (m : nat) :
  forall (blobs : list Blob.t) (s : nat -> R) (n : nat),
    steps (S m) blobs s n
    = step (fst (steps m blobs s n)) s (snd (steps m blobs s n)).
Proof.
  induction m as [| m IH]; intros blobs s n.
  - rewrite steps_S. cbn [steps ret fst snd].
    destruct (step blobs s n). reflexivity.
  - rewrite steps_S, IH, <- steps_S. reflexivity.
Qed.

(** C3: every blob the initialisation makes has radius at most
    [MIN_RADIUS + 2]; [update] never changes a radius; [split] never makes
    one larger, and makes parent and child strictly smaller when it splits;
    so after any number of iterations every radius is strictly below the
    split threshold [0.8 * MAX_RADIUS], [split] returns no child for any
    blob, and the number of blobs is what it was after initialisation. *)
Theorem radii_stay_below_split_threshold (s : nat -> R) (fuel : nat)
    (blobs0 : list Blob.t) (k : nat) :
  unit_draws s ->
  init_blobs fuel s 0%nat = (Some blobs0, k) ->
  Forall (fun b => Blob.r b <= IZR (MIN_RADIUS + 2)) blobs0 /\
  (forall b : Blob.t, Blob.r (Blob.update b) = Blob.r b) /\
  (forall (b : Blob.t) (s' : nat -> R) (n : nat),
     Blob.r (fst (fst (Blob.split b s' n))) <= Blob.r b /\
     (forall child : Blob.t,
        snd (fst (Blob.split b s' n)) = Some child ->
        Blob.r (fst (fst (Blob.split b s' n))) < Blob.r b /\
        Blob.r child < Blob.r b)) /\
  (forall m : nat,
     Forall (fun b => Blob.r b < IZR MAX_RADIUS * (8 / 10))
            (fst (steps m blobs0 s k)) /\
     (forall (b : Blob.t) (s' : nat -> R) (n : nat),
        In b (fst (steps m blobs0 s k)) ->
        snd (fst (Blob.split b s' n)) = None) /\
     length (fst (steps m blobs0 s k)) = length blobs0).
Proof.
  intros Hs Hinit.
  destruct (init_blobs_sound s fuel blobs0 k Hs Hinit) as (Hfresh & _).
  assert (H7 : Forall (fun b => Blob.r b <= IZR (MIN_RADIUS + 2)) blobs0).
  { apply Forall_impl with (2 := Hfresh). intros b Hb. apply Hb. }
  split; [exact H7 |]. split; [exact update_r |].
  split; [exact split_radius_le |].
  intros m. rewrite steps_small by (apply fresh_small, Hfresh). cbn [fst].
  assert (Hm : Forall (fun b => Blob.r b <= IZR (MIN_RADIUS + 2))
                 (Nat.iter m update_blobs blobs0)).
  { apply Forall_iter_update; [| exact H7].
    intros b Hb. rewrite update_r. exact Hb. }
  change (IZR (MIN_RADIUS + 2)) with 7 in Hm. rewrite split_threshold.
  split; [| split].
  - apply Forall_impl with (2 := Hm). intros b Hb. lra.
  - intros b s' n Hin. rewrite Forall_forall in Hm.
    rewrite split_run_small; [reflexivity |].
    specialize (Hm b Hin). lra.
  - apply iter_update_length.
Qed.

Lemma radii_stay_below_split_threshold_witness :
  exists (blobs0 : list Blob.t) (k : nat),
    init_blobs 34 zero_draws 0%nat = (Some blobs0, k) /\
    forall m : nat,
      Forall (fun b => Blob.r b < IZR MAX_RADIUS * (8 / 10))
             (fst (steps m blobs0 zero_draws k)) /\
      length (fst (steps m blobs0 zero_draws k)) = length blobs0.
Proof.
  destruct (init_blobs_exist zero_draws zero_draws_unit) as (blobs0 & k & H).
  exists blobs0, k.
  assert (Hrun := H 34%nat (Nat.le_refl 34)).
  split; [exact Hrun |]. intros m.
  destruct (radii_stay_below_split_threshold zero_draws 34 blobs0 k
              zero_draws_unit Hrun) as (_ & _ & _ & Hm).
  destruct (Hm m) as (Hr & _ & Hlen). split; assumption.
Defined.

(** C4: starting from the initialised list, the number of blobs never goes
    down from one iteration to the next, and after any number of iterations
    every radius satisfies [0 < r <= MAX_RADIUS]. *)
Theorem population_and_radii_over_steps (s : nat -> R) (fuel : nat)
    (blobs0 : list Blob.t) (k : nat) :
  unit_draws s ->
  init_blobs fuel s 0%nat = (Some blobs0, k) ->
  forall m : nat,
    (length (fst (steps m blobs0 s k))
     <= length (fst (steps (S m) blobs0 s k)))%nat /\
    Forall (fun b => 0 < Blob.r b <= IZR MAX_RADIUS)
           (fst (steps m blobs0 s k)).
Proof.
  intros Hs Hinit m. split.
  - rewrite steps_snoc. apply step_length.
  - destruct (init_blobs_sound s fuel blobs0 k Hs Hinit) as (Hfresh & _).
    rewrite steps_small by (apply fresh_small, Hfresh). cbn [fst].
    apply Forall_iter_update.
    + intros b Hb. rewrite update_r. exact Hb.
    + apply Forall_impl with (2 := Hfresh).
      unfold fresh. change (IZR (MIN_RADIUS + 2)) with 7.
      change (IZR MAX_RADIUS) with 15. intros b (Hr & _). lra.
Qed.

Lemma population_and_radii_over_steps_witness :
  exists (blobs0 : list Blob.t) (k : nat),
    init_blobs 34 zero_draws 0%nat = (Some blobs0, k) /\
    forall m : nat,
      (length (fst (steps m blobs0 zero_draws k))
       <= length (fst (steps (S m) blobs0 zero_draws k)))%nat /\
      Forall (fun b => 0 < Blob.r b <= IZR MAX_RADIUS)
             (fst (steps m blobs0 zero_draws k)).
Proof.
  destruct (init_blobs_exist zero_draws zero_draws_unit) as (blobs0 & k & H).
  exists blobs0, k.
  assert (Hrun := H 34%nat (Nat.le_refl 34)).
  split; [exact Hrun |].
  exact (population_and_radii_over_steps zero_draws 34 blobs0 k
           zero_draws_unit Hrun).
Defined.

(** ** The chrome bands against the column *)

(** C9 holds but for the width.  Each band is 13 slices, one per gradient
    colour, all [chrome_slice_width] wide and [CHROME_HEIGHT] high, side by
    side from the column's left edge, the upper band ending on the column's
    top edge and the lower band starting on its bottom edge.  But
    [chrome_slice_width] is [120 // 13 = 9], so a band is 117 pixels wide
    and stops 3 pixels short of the column's right edge, where the comment
    on [CHROME_HEIGHT] has the chrome the same width as the column. *)
Theorem draw_chrome_falls_short_of_column :
  length chrome_colors = 13%nat /\
  rectangles draw_chrome
  = map (fun i => rectangle (COLUMN_X + i * chrome_slice_width)
                            (COLUMN_Y - CHROME_HEIGHT)
                            chrome_slice_width CHROME_HEIGHT)
        (range 13)
    ++ map (fun i => rectangle (COLUMN_X + i * chrome_slice_width)
                               (COLUMN_Y + CANVAS_HEIGHT * SCALE)
                               chrome_slice_width CHROME_HEIGHT)
           (range 13) /\
  chrome_slice_width = 9%Z /\
  (13 * chrome_slice_width = 117)%Z /\
  (CANVAS_WIDTH * SCALE = 120)%Z /\
  (forall x0 py w h : Z,
     In (rectangle x0 py w h) draw_chrome ->
     (x0 + w <= COLUMN_X + CANVAS_WIDTH * SCALE - 3)%Z).
Proof.
  split; [reflexivity |]. split; [vm_compute; reflexivity |].
  split; [reflexivity |]. split; [reflexivity |]. split; [reflexivity |].
  intros x0 py w h Hin. vm_compute in Hin.
  change (x0 + w <= 297)%Z.
  repeat (destruct Hin as [Hin | Hin];
          [try discriminate Hin; injection Hin as <- <- <- <-; lia |]).
  destruct Hin.
Qed.

(** ** The colour of a painted cell *)

Lemma mid_blob_field :
  metaball_field (IZR 10) (IZR 35) [mid_blob] = 4008 / 1000.
Proof.
  unfold metaball_field, field_add, mid_blob.
  cbn [fold_left Blob.x Blob.y Blob.r].
  assert (H : (10 - 21 / 2) * (10 - 21 / 2) + (35 - 35) * (35 - 35) > 0)
    by lra.
  apply Rgtb_true in H. rewrite H. lra.
Qed.

Lemma mid_blob_intensity :
  Z.min (py_int (metaball_field (IZR 10) (IZR 35) [mid_blob] * 50)) 255
  = 200%Z.
Proof.
  rewrite mid_blob_field.
  assert (H : py_int (4008 / 1000 * 50) = 200%Z).
  { unfold py_int.
    assert (Hp : 0 <= 4008 / 1000 * 50) by lra.
    apply Rltb_false in Hp. rewrite Hp.
    symmetry. apply Int_part_spec. change (IZR 200) with 200. lra. }
  rewrite H. reflexivity.
Qed.

(** C8, as stated, fails: with [mid_blob] as the only blob the field at
    the cell (10, 35) is 4.008, above the threshold, and [min(value * 50,
    255)] is 200.4; the pen the raster loop selects for the cell has the
    red channel 200. *)
Lemma raster_intensity_is_not_scaled_field :
  metaball_field (IZR 10) (IZR 35) [mid_blob] > 25 / 10 /\
  render_cell [mid_blob] 35 10
  = [ set_pen (create_pen 200 105 180);
      rectangle (COLUMN_X + 10 * SCALE) (COLUMN_Y + 35 * SCALE) SCALE SCALE ] /\
  In (set_pen (create_pen 200 105 180)) (render_metaballs [mid_blob]) /\
  Rmin (metaball_field (IZR 10) (IZR 35) [mid_blob] * 50) 255 = 2004 / 10 /\
  IZR 200 <> Rmin (metaball_field (IZR 10) (IZR 35) [mid_blob] * 50) 255.
Proof.
  assert (Hcell : render_cell [mid_blob] 35 10
    = [ set_pen (create_pen 200 105 180);
        rectangle (COLUMN_X + 10 * SCALE) (COLUMN_Y + 35 * SCALE)
                  SCALE SCALE ]).
  { unfold render_cell. rewrite mid_blob_intensity.
    assert (Hv : metaball_field (IZR 10) (IZR 35) [mid_blob] > 25 / 10)
      by (rewrite mid_blob_field; lra).
    apply Rgtb_true in Hv. rewrite Hv. reflexivity. }
  assert (Hmin : Rmin (metaball_field (IZR 10) (IZR 35) [mid_blob] * 50) 255
                 = 2004 / 10).
  { rewrite mid_blob_field. unfold Rmin.
    destruct (Rle_dec (4008 / 1000 * 50) 255); lra. }
  split; [rewrite mid_blob_field; lra |].
  split; [exact Hcell |]. split; [| split; [exact Hmin |]].
  - apply In_render_metaballs. exists 35%Z, 10%Z.
    split; [unfold CANVAS_HEIGHT; lia |].
    split; [unfold CANVAS_WIDTH; lia |].
    rewrite Hcell. left. reflexivity.
  - rewrite Hmin. change (IZR 200) with 200. lra.
Qed.

Lemma flat_map_In_split {A B : Type} (f : A -> list B) (a : A) (l : list A) :
  In a l -> exists l1 l2 : list B, flat_map f l = l1 ++ f a ++ l2.
Proof.
  intros Hin. apply in_split in Hin. destruct Hin as (la & lb & ->).
  exists (flat_map f la), (flat_map f lb).
  rewrite flat_map_app. reflexivity.
Qed.

(** C8, amended: for every cell of the grid the raster loops fill the
    cell's [SCALE] x [SCALE] block at [(COLUMN_X + x * SCALE, COLUMN_Y + y *
    SCALE)] if and only if the field at the cell exceeds 2.5; the block is
    filled right after selecting the pen [(i, 105, 180)], where [i] is
    [min(int(value * 50), 255)], that is [min(value * 50, 255)] rounded down
    to an integer; and with no blobs nothing is painted. *)
Theorem raster_fills_cells_above_threshold (blobs : list Blob.t)
    (cx cy : Z) :
  (0 <= cx < CANVAS_WIDTH)%Z -> (0 <= cy < CANVAS_HEIGHT)%Z ->
  (In (rectangle (COLUMN_X + cx * SCALE) (COLUMN_Y + cy * SCALE) SCALE SCALE)
      (render_metaballs blobs)
   <-> metaball_field (IZR cx) (IZR cy) blobs > 25 / 10) /\
  (metaball_field (IZR cx) (IZR cy) blobs > 25 / 10 ->
   exists (pre post : list call) (i : Z),
     render_metaballs blobs
     = pre
       ++ [ set_pen (create_pen i 105 180);
            rectangle (COLUMN_X + cx * SCALE) (COLUMN_Y + cy * SCALE)
                      SCALE SCALE ]
       ++ post /\
     i = Z.min (py_int (metaball_field (IZR cx) (IZR cy) blobs * 50)) 255 /\
     IZR i <= Rmin (metaball_field (IZR cx) (IZR cy) blobs * 50) 255
       < IZR i + 1) /\
  render_metaballs [] = [].
Proof.
  intros Hcx Hcy. split; [| split].
  - rewrite In_render_metaballs. split.
    + intros (cy' & cx' & Hcy' & Hcx' & Hin).
      apply In_render_cell_rectangle in Hin.
      destruct Hin as (Hv & Hx & Hy & _).
      unfold SCALE in Hx, Hy.
      assert (cx' = cx) by lia. assert (cy' = cy) by lia. subst. exact Hv.
    + intros Hv. exists cy, cx. repeat split; try lia.
      apply In_render_cell_rectangle. tauto.
  - intros Hv.
    destruct (flat_map_In_split
                (fun cy => flat_map (render_cell blobs cy) (range CANVAS_WIDTH))
                cy (range CANVAS_HEIGHT)) as (L1 & L2 & HL);
      [apply In_range, Hcy |].
    destruct (flat_map_In_split (render_cell blobs cy) cx (range CANVAS_WIDTH))
      as (M1 & M2 & HM); [apply In_range, Hcx |].
    exists (L1 ++ M1), (M2 ++ L2),
      (Z.min (py_int (metaball_field (IZR cx) (IZR cy) blobs * 50)) 255).
    split; [| split; [reflexivity |]].
    + unfold render_metaballs. rewrite HL, HM. unfold render_cell.
      assert (Hb := Hv). apply Rgtb_true in Hb. rewrite Hb.
      rewrite <- !app_assoc. reflexivity.
    + destruct (intensity_cases _ Hv) as (_ & Hlow & Hhigh).
      unfold Rmin.
      destruct (Rle_dec (metaball_field (IZR cx) (IZR cy) blobs * 50) 255)
        as [Hle | Hgt].
      * destruct (Rlt_le_dec (metaball_field (IZR cx) (IZR cy) blobs)
                    (51 / 10)) as [Hlt | Hge].
        -- apply Hlow, Hlt.
        -- rewrite (Hhigh Hge). change (IZR 255) with 255. lra.
      * rewrite Hhigh by lra. change (IZR 255) with 255. lra.
  - unfold render_metaballs. apply flat_map_nil. intros y _.
    apply flat_map_nil. intros x _. unfold render_cell.
    rewrite metaball_field_nil.
    assert (H : 0 <= 25 / 10) by lra. apply Rgtb_false in H. rewrite H.
    reflexivity.
Qed.

Lemma raster_fills_cells_above_threshold_witness :
  In (rectangle (COLUMN_X + 10 * SCALE) (COLUMN_Y + 35 * SCALE) SCALE SCALE)
     (render_metaballs [mid_blob])
  <-> metaball_field (IZR 10) (IZR 35) [mid_blob] > 25 / 10.
Proof.
  apply (raster_fills_cells_above_threshold [mid_blob] 10 35).
  - unfold CANVAS_WIDTH. lia.
  - unfold CANVAS_HEIGHT. lia.
Defined.

(** ** Evaluating update on rational blobs *)

Lemma Rgtb_Q2R (a b : Q) : Rgtb (Q2R a) (Q2R b) = QBlob.Qgtb a b.
Proof.
  unfold QBlob.Qgtb. destruct (Qle_bool a b) eqn:E; cbn [negb].
  - apply Rgtb_false. apply Qle_Rle. apply Qle_bool_iff. exact E.
  - apply Rgtb_true. apply Rnot_le_gt. intros H. apply Rle_Qle in H.
    apply Qle_bool_iff in H. congruence.
Qed.

Lemma Rltb_Q2R (a b : Q) : Rltb (Q2R a) (Q2R b) = QBlob.Qltb a b.
Proof.
  unfold QBlob.Qltb. destruct (Qle_bool b a) eqn:E; cbn [negb].
  - apply Rltb_false. apply Qle_Rle. apply Qle_bool_iff. exact E.
  - apply Rltb_true. apply Rnot_le_lt. intros H. apply Rle_Qle in H.
    apply Qle_bool_iff in H. congruence.
Qed.

Lemma Q2R_const (z : Z) (p : positive) : Q2R (z # p) = IZR z / IZR (Z.pos p).
Proof. reflexivity. Qed.

Lemma Q2R_clamp (v : Q) : Q2R (QBlob.clamp v) = Rmax 0 (Rmin 1 (Q2R v)).
Proof.
  unfold QBlob.clamp, Rmax, Rmin.
  assert (H0 : Q2R 0 = 0) by (unfold Q2R; cbn; lra).
  assert (H1 : Q2R 1 = 1) by (unfold Q2R; cbn; lra).
  destruct (Qle_bool 1 v) eqn:E1.
  - apply Qle_bool_iff, Qle_Rle in E1. rewrite H1 in E1.
    destruct (Rle_dec 1 (Q2R v)); [| lra].
    cbn. destruct (Rle_dec 0 1); lra.
  - assert (Hlt : Q2R v < 1).
    { apply Rnot_le_lt. intros H. rewrite <- H1 in H. apply Rle_Qle in H.
      apply Qle_bool_iff in H. congruence. }
    destruct (Rle_dec 1 (Q2R v)); [lra |].
    destruct (Qle_bool 0 v) eqn:E0.
    + apply Qle_bool_iff, Qle_Rle in E0. rewrite H0 in E0.
      destruct (Rle_dec 0 (Q2R v)); lra.
    + assert (Hneg : Q2R v < 0).
      { apply Rnot_le_lt. intros H. rewrite <- H0 in H. apply Rle_Qle in H.
        apply Qle_bool_iff in H. congruence. }
      destruct (Rle_dec 0 (Q2R v)); lra.
Qed.

Ltac q2r :=
  rewrite ?Q2R_plus, ?Q2R_minus, ?Q2R_mult, ?Q2R_opp, ?Q2R_const;
  unfold_consts; try lra.

Lemma to_R_apply_gravity q :
  Blob.apply_gravity (QBlob.to_R q) = QBlob.to_R (QBlob.apply_gravity q).
Proof.
  unfold Blob.apply_gravity, QBlob.apply_gravity, QBlob.to_R, Blob.set_dy.
  cbn. f_equal. q2r.
Qed.

Lemma to_R_heat_or_cool q :
  Blob.heat_or_cool (QBlob.to_R q) = QBlob.to_R (QBlob.heat_or_cool q).
Proof.
  unfold Blob.heat_or_cool, QBlob.heat_or_cool.
  replace (IZR CANVAS_HEIGHT - HEAT_ZONE) with (Q2R (70 - 70 * (15 # 100)))
    by q2r.
  unfold QBlob.to_R at 1. cbn [Blob.y]. rewrite Rgtb_Q2R.
  destruct (QBlob.Qgtb _ _); unfold QBlob.to_R, Blob.set_dy,
    Blob.set_temperature; cbn; f_equal; q2r.
Qed.

Lemma to_R_clamp_temperature q :
  Blob.clamp_temperature (QBlob.to_R q)
  = QBlob.to_R (QBlob.clamp_temperature q).
Proof.
  unfold Blob.clamp_temperature, QBlob.clamp_temperature, QBlob.to_R,
    Blob.set_temperature.
  cbn. f_equal. symmetry. apply Q2R_clamp.
Qed.

Lemma to_R_apply_buoyancy q :
  Blob.apply_buoyancy (QBlob.to_R q) = QBlob.to_R (QBlob.apply_buoyancy q).
Proof.
  unfold Blob.apply_buoyancy, QBlob.apply_buoyancy, QBlob.to_R, Blob.set_dy.
  cbn. f_equal. q2r.
Qed.

Lemma to_R_move q : Blob.move (QBlob.to_R q) = QBlob.to_R (QBlob.move q).
Proof.
  unfold Blob.move, QBlob.move, QBlob.to_R, Blob.set_x, Blob.set_y.
  cbn. f_equal; q2r.
Qed.

Lemma to_R_bounce q : Blob.bounce (QBlob.to_R q) = QBlob.to_R (QBlob.bounce q).
Proof.
  unfold Blob.bounce, QBlob.bounce.
  replace 0 with (Q2R 0) by q2r.
  replace (IZR CANVAS_WIDTH) with (Q2R 20) by q2r.
  unfold QBlob.to_R at 1 2 3 4. cbn [Blob.x Blob.r].
  rewrite <- (Q2R_minus (QBlob.x q) (QBlob.r q)),
    <- (Q2R_plus (QBlob.x q) (QBlob.r q)), Rltb_Q2R, Rgtb_Q2R.
  destruct (_ || _); [| reflexivity].
  unfold QBlob.to_R, Blob.set_dx. cbn. f_equal. q2r.
Qed.

Lemma to_R_reset q : Blob.reset (QBlob.to_R q) = QBlob.to_R (QBlob.reset q).
Proof.
  assert (H1 : Rgtb (Q2R (QBlob.y q) - Q2R (QBlob.r q)) (IZR CANVAS_HEIGHT)
               = QBlob.Qgtb (QBlob.y q - QBlob.r q) 70).
  { rewrite <- Q2R_minus.
    replace (IZR CANVAS_HEIGHT) with (Q2R 70) by q2r. apply Rgtb_Q2R. }
  assert (H2 : Rltb (Q2R (QBlob.y q) + Q2R (QBlob.r q)) 0
               = QBlob.Qltb (QBlob.y q + QBlob.r q) 0).
  { rewrite <- Q2R_plus. replace 0 with (Q2R 0) by q2r. apply Rltb_Q2R. }
  unfold Blob.reset, QBlob.reset, QBlob.to_R, Blob.set_dy, Blob.set_y.
  cbn [Blob.x Blob.y Blob.r Blob.dx Blob.dy Blob.temperature].
  rewrite H1, H2.
  destruct (QBlob.Qgtb _ _).
  - cbn. f_equal; q2r.
  - destruct (QBlob.Qltb _ _); [| reflexivity]. cbn. f_equal; q2r.
Qed.

Lemma to_R_lowest_terms q : QBlob.to_R (QBlob.lowest_terms q) = QBlob.to_R q.
Proof.
  unfold QBlob.lowest_terms, QBlob.to_R. cbn.
  f_equal; apply Qeq_eqR, Qred_correct.
Qed.

Lemma to_R_update q : Blob.update (QBlob.to_R q) = QBlob.to_R (QBlob.update q).
Proof.
  unfold Blob.update, Blob.before_reset, QBlob.update.
  rewrite to_R_apply_gravity, to_R_heat_or_cool, to_R_clamp_temperature,
    to_R_apply_buoyancy, to_R_move, to_R_bounce, to_R_reset,
    to_R_lowest_terms.
  reflexivity.
Qed.

Lemma to_R_iter_update (m : nat) (q : QBlob.t) :
  Nat.iter m Blob.update (QBlob.to_R q)
  = QBlob.to_R (Nat.iter m QBlob.update q).
Proof.
  induction m as [| m IH]; [reflexivity |].
  rewrite !Nat.iter_succ, IH. apply to_R_update.
Qed.

(** ** Where a run takes the first blob *)

Lemma init_first_iteration (fuel : nat) :
  init_loop (S fuel) [] TOTAL_AREA zero_draws 0%nat
  = init_loop fuel [QBlob.to_R first_blob] (TOTAL_AREA - PI * 5 ^ 2)
      zero_draws 5%nat.
Proof.
  rewrite init_loop_unfold by (rewrite TOTAL_AREA_value; lra).
  cbv zeta. unfold zero_draws.
  assert (Hr0 : IZR MIN_RADIUS + (IZR (MIN_RADIUS + 2) - IZR MIN_RADIUS) * 0
                = 5).
  { unfold MIN_RADIUS. change (IZR (5 + 2)) with 7. lra. }
  rewrite Hr0.
  assert (Hno : Rgtb (PI * 5 ^ 2) TOTAL_AREA = false).
  { apply Rgtb_false. rewrite TOTAL_AREA_value. assert (H := PI_4). lra. }
  rewrite Hno. cbn [app].
  match goal with
  | |- context [[?b]] =>
      replace b with (QBlob.to_R first_blob);
      [reflexivity |
       unfold QBlob.to_R, first_blob; cbn; f_equal; q2r]
  end.
Qed.

Lemma init_blobs_unfold (fuel : nat) (s : nat -> R) (n : nat) :
  init_blobs fuel s n = init_loop fuel [] TOTAL_AREA s n.
Proof. reflexivity. Qed.

Lemma init_zero_draws_head :
  exists (rest : list Blob.t) (k : nat),
    init_blobs 34 zero_draws 0%nat
    = (Some (QBlob.to_R first_blob :: rest), k) /\
    Forall fresh (QBlob.to_R first_blob :: rest).
Proof.
  destruct (init_blobs_exist zero_draws zero_draws_unit) as (blobs0 & k & H).
  assert (Hrun := H 34%nat (Nat.le_refl 34)).
  destruct (init_blobs_sound zero_draws 34 blobs0 k zero_draws_unit Hrun)
    as (Hfresh & _).
  assert (Hhead : exists new, blobs0 = QBlob.to_R first_blob :: new).
  { assert (Hrun' : init_loop 34 [] TOTAL_AREA zero_draws 0%nat
                    = (Some blobs0, k)).
    { rewrite <- init_blobs_unfold. exact Hrun. }
    rewrite (init_first_iteration 33) in Hrun'.
    apply (init_loop_sound zero_draws zero_draws_unit) in Hrun'.
    - destruct Hrun' as (new & Heq & _). exists new. exact Heq.
    - rewrite TOTAL_AREA_value. assert (H4 := PI_4). lra. }
  destruct Hhead as (new & Heq). subst blobs0.
  exists new, k. split; [exact Hrun | exact Hfresh].
Qed.

Lemma iter_update_cons (m : nat) (b : Blob.t) (l : list Blob.t) :
  Nat.iter m update_blobs (b :: l)
  = Nat.iter m Blob.update b :: Nat.iter m update_blobs l.
Proof.
  induction m as [| m IH]; [reflexivity |].
  rewrite !Nat.iter_succ, IH. reflexivity.
Qed.

Lemma first_blob_after_87 :
  Nat.iter 87 QBlob.update first_blob
  = QBlob.mk (11 # 2) (3541 # 50) 5 (- (1 # 2))%Q (146 # 125) (4 # 25).
Proof. vm_compute. reflexivity. Qed.

(** C2, as stated, fails.  With every draw 0 the first blob starts at
    (5, 5) with radius 5 and [dy = -0.1]; it falls, and the 87th [update]
    leaves its centre at [y = 70.82], below [CANVAS_HEIGHT]: the reset only
    fires once the whole disc is below the column. *)
Lemma blob_centre_sinks_below_canvas :
  exists (blobs : list Blob.t) (b : Blob.t),
    reachable zero_draws blobs /\ In b blobs /\
    Blob.y (Blob.update b) = 3541 / 50 /\
    ~ (0 <= Blob.x (Blob.update b) <= IZR CANVAS_WIDTH /\
       0 <= Blob.y (Blob.update b) <= IZR CANVAS_HEIGHT).
Proof.
  destruct init_zero_draws_head as (rest & k & Hinit & Hfresh).
  exists (Nat.iter 86 update_blobs (QBlob.to_R first_blob :: rest)),
    (Nat.iter 86 Blob.update (QBlob.to_R first_blob)).
  assert (Hy : Blob.y (Blob.update (Nat.iter 86 Blob.update
                                      (QBlob.to_R first_blob)))
               = 3541 / 50).
  { rewrite <- Nat.iter_succ, to_R_iter_update, first_blob_after_87.
    unfold QBlob.to_R. cbn [Blob.y QBlob.y]. q2r. }
  split; [| split; [| split; [exact Hy |]]].
  - exists 34%nat, (QBlob.to_R first_blob :: rest), k, 86%nat.
    split; [exact Hinit |].
    rewrite steps_small by (apply fresh_small, Hfresh). reflexivity.
  - rewrite iter_update_cons. left. reflexivity.
  - rewrite Hy. change (IZR CANVAS_HEIGHT) with 70. intros [_ H]. lra.
Qed.

(** C2, amended: in every state a run reaches (draws in [0, 1)), after a
    call to [update] the blob's disc still touches the column vertically,
    [-r <= y <= CANVAS_HEIGHT + r], and reaches at most half a cell beyond
    a wall, [r - 0.5 <= x <= CANVAS_WIDTH - r + 0.5], so that [x] is within
    the canvas for every blob of radius 0.5 or more.  Only the velocity is
    corrected at the walls, and [y] only once the whole disc has left. *)
Theorem update_keeps_blobs_near_canvas (s : nat -> R)
    (blobs : list Blob.t) (b : Blob.t) :
  unit_draws s -> reachable s blobs -> In b blobs ->
  - Blob.r b <= Blob.y (Blob.update b) <= IZR CANVAS_HEIGHT + Blob.r b /\
  Blob.r b - 1 / 2 <= Blob.x (Blob.update b)
    <= IZR CANVAS_WIDTH - Blob.r b + 1 / 2 /\
  (1 / 2 <= Blob.r b -> 0 <= Blob.x (Blob.update b) <= IZR CANVAS_WIDTH).
Proof.
  intros Hs Hreach Hin.
  destruct (reachable_inv s blobs Hs Hreach)
    as (blobs0 & m & Hfresh & _ & _ & ->).
  assert (H : Forall (fun b => in_play b /\ near_column b)
                (Nat.iter m update_blobs blobs0)).
  { apply Forall_iter_update; [exact running_update |].
    apply Forall_impl with (2 := Hfresh). intros b' Hb.
    split; [apply fresh_in_play | apply fresh_near_column]; exact Hb. }
  rewrite Forall_forall in H. specialize (H b Hin).
  destruct (running_update b H) as (_ & Hx & Hy & _).
  rewrite update_r in Hx, Hy.
  split; [exact Hy |]. split; [exact Hx |].
  intros Hr. change (IZR CANVAS_WIDTH) with 20 in *. lra.
Qed.

Lemma update_keeps_blobs_near_canvas_witness :
  exists (blobs : list Blob.t) (b : Blob.t),
    reachable zero_draws blobs /\ In b blobs /\
    - Blob.r b <= Blob.y (Blob.update b) <= IZR CANVAS_HEIGHT + Blob.r b /\
    Blob.r b - 1 / 2 <= Blob.x (Blob.update b)
      <= IZR CANVAS_WIDTH - Blob.r b + 1 / 2.
Proof.
  destruct init_zero_draws_head as (rest & k & Hinit & _).
  assert (Hreach : reachable zero_draws (QBlob.to_R first_blob :: rest)).
  { exists 34%nat, (QBlob.to_R first_blob :: rest), k, 0%nat.
    split; [exact Hinit | reflexivity]. }
  assert (Hin : In (QBlob.to_R first_blob) (QBlob.to_R first_blob :: rest))
    by (left; reflexivity).
  exists (QBlob.to_R first_blob :: rest), (QBlob.to_R first_blob).
  destruct (update_keeps_blobs_near_canvas zero_draws _ _ zero_draws_unit
              Hreach Hin) as (Hy & Hx & _).
  repeat split; try assumption; apply Hy || apply Hx.
Defined.
